(** * gtoken: the token lifecycle of [GoogleToken] (src/index.ts)

    A shallow embedding of the [GoogleToken] class: its fields, the
    [configure] / [hasExpired] / [getCredentials] / [getTokenAsync] /
    [requestToken] / [revokeTokenAsync] methods, and the properties of the
    token lifecycle that follow from them.

    Modelling conventions.
    - A JavaScript value of type [T | null | undefined] is an [option T];
      [None] stands for both [null] and [undefined], which the class never
      tells apart (every test on a field is a truthiness test, and the one
      explicit test, on [expires_in], treats the two alike).
    - Numbers (epoch milliseconds, seconds, [expires_in]) are integers in
      [Z]; [Math.floor (x / 1000)] is [x / 1000] on [Z].
    - A method is a function from the object and the log of calls made so
      far to a completion (resolved or rejected promise), the updated
      object and the extended log.  The outside world (clock, file system,
      MIME table, signer, HTTP endpoints, proxy variable) is a record of
      oracles, one [World] per call.
    - [getToken(callback)] and [revokeToken(callback)] forward to the
      promise forms [getTokenAsync] and [revokeTokenAsync]; they are
      [getToken_callback] and [revokeToken_callback], with the callback as
      a method of its own.  The lazy [import] of the PKCS#12 decoder is
      part of the [p12_getPem] oracle. *)

From stdpp Require Import base option strings list gmap fin_maps.
From Stdlib Require Import ZArith Lia.

Open Scope Z_scope.
Open Scope string_scope.

(** ** Constants *)

Definition GOOGLE_TOKEN_URL : string :=
  "https://www.googleapis.com/oauth2/v4/token".
Definition GOOGLE_REVOKE_TOKEN_URL : string :=
  "https://accounts.google.com/o/oauth2/revoke?token=".

(** ** JavaScript values and truthiness *)

(** The values a JWT claim can carry in this model ([any] in the source,
    restricted to the scalars). *)
Inductive JsVal : Type :=
| JUndefined
| JNull
| JBool (b : bool)
| JNum (n : Z)
| JStr (s : string).

Definition of_string (o : option string) : JsVal :=
  match o with Some s => JStr s | None => JUndefined end.

(** [!!x] for an optional string: absent and [''] are falsy. *)
Definition truthy (o : option string) : bool :=
  match o with
  | Some s => negb (bool_decide (s = ""))
  | None => false
  end.

(** [!!x] for an optional number: absent and [0] are falsy. *)
Definition truthy_num (o : option Z) : bool :=
  match o with
  | Some n => negb (n =? 0)%Z
  | None => false
  end.

(** [a || b] on optional strings. *)
Definition js_or (a b : option string) : option string :=
  if truthy a then a else b.

(** ** Interfaces of the source *)

Record Credentials : Type := {
  privateKey : option string;
  clientEmail : option string;
}.

Record TokenData : Type := {
  refresh_token : option string;
  expires_in : option Z;
  access_token : option string;
  token_type : option string;
  id_token : option string;
}.

Inductive ScopeOption : Type :=
| ScopeString (s : string)
| ScopeArray (l : list string).

Record TokenOptions : Type := {
  opt_keyFile : option string;
  opt_key : option string;
  opt_email : option string;
  opt_iss : option string;
  opt_sub : option string;
  opt_scope : option ScopeOption;
  opt_additionalClaims : option (gmap string JsVal);
}.

(** [{}], the default argument of [configure]. *)
Definition no_options : TokenOptions :=
  {| opt_keyFile := None; opt_key := None; opt_email := None;
     opt_iss := None; opt_sub := None; opt_scope := None;
     opt_additionalClaims := None |}.

(** The fields of a [GoogleToken] instance. *)
Record GoogleToken : Type := {
  token : option string;
  expiresAt : option Z;
  key : option string;
  keyFile : option string;
  iss : option string;
  sub : option string;
  scope : option string;
  rawToken : option TokenData;
  tokenExpires : option Z;
  email : option string;
  additionalClaims : option (gmap string JsVal);
}.

(** Field assignments [this.f = v]. *)
Definition set_token (v : option string) (g : GoogleToken) : GoogleToken :=
  {| token := v; expiresAt := expiresAt g; key := key g;
     keyFile := keyFile g; iss := iss g; sub := sub g; scope := scope g;
     rawToken := rawToken g; tokenExpires := tokenExpires g;
     email := email g; additionalClaims := additionalClaims g |}.

Definition set_expiresAt (v : option Z) (g : GoogleToken) : GoogleToken :=
  {| token := token g; expiresAt := v; key := key g;
     keyFile := keyFile g; iss := iss g; sub := sub g; scope := scope g;
     rawToken := rawToken g; tokenExpires := tokenExpires g;
     email := email g; additionalClaims := additionalClaims g |}.

Definition set_rawToken (v : option TokenData) (g : GoogleToken) : GoogleToken :=
  {| token := token g; expiresAt := expiresAt g; key := key g;
     keyFile := keyFile g; iss := iss g; sub := sub g; scope := scope g;
     rawToken := v; tokenExpires := tokenExpires g;
     email := email g; additionalClaims := additionalClaims g |}.

Definition set_tokenExpires (v : option Z) (g : GoogleToken) : GoogleToken :=
  {| token := token g; expiresAt := expiresAt g; key := key g;
     keyFile := keyFile g; iss := iss g; sub := sub g; scope := scope g;
     rawToken := rawToken g; tokenExpires := v;
     email := email g; additionalClaims := additionalClaims g |}.

Definition set_key (v : option string) (g : GoogleToken) : GoogleToken :=
  {| token := token g; expiresAt := expiresAt g; key := v;
     keyFile := keyFile g; iss := iss g; sub := sub g; scope := scope g;
     rawToken := rawToken g; tokenExpires := tokenExpires g;
     email := email g; additionalClaims := additionalClaims g |}.

Definition set_iss (v : option string) (g : GoogleToken) : GoogleToken :=
  {| token := token g; expiresAt := expiresAt g; key := key g;
     keyFile := keyFile g; iss := v; sub := sub g; scope := scope g;
     rawToken := rawToken g; tokenExpires := tokenExpires g;
     email := email g; additionalClaims := additionalClaims g |}.

(** ** Errors *)

(** The body of an error response, as far as [requestToken] reads it.  The
    two fields are JSON strings when present (RFC 6749, section 5.2). *)
Record ErrorBody : Type := {
  error : option string;
  error_description : option string;
}.

Record HttpResponse : Type := {
  status : Z;
  data : option ErrorBody;
}.

(** The value an axios call rejects with: [response] is absent when no
    response was received at all. *)
Record HttpFailure : Type := {
  failure_message : string;
  response : option HttpResponse;
}.

Inductive JsError : Type :=
| Error (message : string)
| ErrorWithCode (message code : string)
| AxiosError (e : HttpFailure)
| ExternalError (message : string).

Definition error_message (e : JsError) : string :=
  match e with
  | Error m => m
  | ErrorWithCode m _ => m
  | AxiosError f => failure_message f
  | ExternalError m => m
  end.

(** ** Requests and the I/O log *)

Record AxiosRequestConfig : Type := {
  content_type : option string;
  httpsAgent : option string;
  proxy : option bool;
}.

Record JwsInput : Type := {
  header_alg : string;
  payload : gmap string JsVal;
  secret : option string;
}.

Record TokenRequestForm : Type := {
  grant_type : string;
  assertion : string;
}.

(** Calls into the external collaborators, in the order they are made. *)
Inductive Event : Type :=
| ReadFile (path encoding : string)
| GetPem (path : string)
| JwsSign (input : JwsInput)
| HttpPost (url : string) (form : TokenRequestForm) (opts : AxiosRequestConfig)
| HttpGet (url : string) (opts : AxiosRequestConfig).

Definition is_network (ev : Event) : bool :=
  match ev with
  | HttpPost _ _ _ | HttpGet _ _ => true
  | ReadFile _ _ | GetPem _ | JwsSign _ => false
  end.

Definition is_file_read (ev : Event) : bool :=
  match ev with
  | ReadFile _ _ | GetPem _ => true
  | HttpPost _ _ _ | HttpGet _ _ | JwsSign _ => false
  end.

Definition network_calls (log : list Event) : nat :=
  length (filter (λ ev, is_network ev = true) log).

Definition file_reads (log : list Event) : nat :=
  length (filter (λ ev, is_file_read ev = true) log).

(** ** The outside world *)

(** The body of a JSON key file, as far as [getCredentials] reads it: the
    two properties read off the parsed value, absent when that value has
    none (an object without them, a number, a string, an array).  The one
    parsed value that has no properties at all is [null]: reading
    [body.private_key] then throws a [TypeError], and that throw is the
    error answer of [JSON_parse] below, not a [KeyFileBody]. *)
Record KeyFileBody : Type := {
  private_key : option string;
  client_email : option string;
}.

Record World : Type := {
  (** [new Date().getTime()] when [hasExpired] runs in [getTokenAsync] *)
  t_check : Z;
  (** [new Date().getTime()] when [requestToken] runs *)
  t_issue : Z;
  mime_getType : string → option string;
  fs_readFile : string → JsError + string;
  (** [JSON.parse(key)] with the reads of [body.private_key] and
      [body.client_email] that follow it: an error when the text does not
      parse or parses to [null] *)
  JSON_parse : string → JsError + KeyFileBody;
  p12_getPem : string → JsError + string;
  jws_sign : JwsInput → JsError + string;
  axios_post : string → TokenRequestForm → HttpFailure + TokenData;
  axios_get : string → HttpFailure + unit;
  (** [process.env.HTTPS_PROXY || process.env.https_proxy] *)
  env_proxy : option string;
}.

(** ** Promises over the object and the log *)

Inductive Completion (A : Type) : Type :=
| Resolved (a : A)
| Rejected (e : JsError).
Arguments Resolved {A} a.
Arguments Rejected {A} e.

Record Store : Type := {
  this : GoogleToken;
  log : list Event;
}.

Definition Async (A : Type) : Type := Store → Completion A * Store.

Definition resolve {A} (a : A) : Async A := λ s, (Resolved a, s).

Definition throw {A} (e : JsError) : Async A := λ s, (Rejected e, s).

Definition and_then {A B} (m : Async A) (k : A → Async B) : Async B :=
  λ s, match m s with
       | (Resolved a, s') => k a s'
       | (Rejected e, s') => (Rejected e, s')
       end.

(** [m.catch(h)] *)
Definition catch {A} (m : Async A) (h : JsError → Async A) : Async A :=
  λ s, match m s with
       | (Resolved a, s') => (Resolved a, s')
       | (Rejected e, s') => h e s'
       end.

Definition self : Async GoogleToken := λ s, (Resolved (this s), s).

Definition assign (f : GoogleToken → GoogleToken) : Async unit :=
  λ s, (Resolved tt, {| this := f (this s); log := log s |}).

Definition emit (ev : Event) : Async unit :=
  λ s, (Resolved tt, {| this := this s; log := log s ++ [ev] |}).

(** The outcome of a call into a library: a value or a thrown error. *)
Definition settle {A} (r : JsError + A) : Async A :=
  match r with
  | inr a => resolve a
  | inl e => throw e
  end.

(** The outcome of an axios call. *)
Definition settle_http {A} (r : HttpFailure + A) : Async A :=
  match r with
  | inr a => resolve a
  | inl f => throw (AxiosError f)
  end.

Notation "x <- m ;; k" := (and_then m (λ x, k))
  (at level 100, m at next level, right associativity, only parsing).
Notation "m ;;; k" := (and_then m (λ _, k))
  (at level 100, right associativity, only parsing).

(** ** The class *)

(** [hasExpired()], with the clock reading [now]. *)
Definition hasExpired (now : Z) (g : GoogleToken) : bool :=
  if truthy (token g) && truthy_num (expiresAt g)
  then (now >=? default 0 (expiresAt g))%Z
  else true.

(** [configure(options)] *)
Definition configure (options : TokenOptions) (g : GoogleToken) : GoogleToken :=
  {| keyFile := opt_keyFile options;
     key := opt_key options;
     token := None; expiresAt := None; rawToken := None;
     iss := js_or (opt_email options) (opt_iss options);
     sub := opt_sub options;
     additionalClaims := opt_additionalClaims options;
     scope := match opt_scope options with
              | Some (ScopeArray l) => Some (String.concat " " l)
              | Some (ScopeString s) => Some s
              | None => None
              end;
     tokenExpires := tokenExpires g;
     email := email g |}.

(** The options object [revokeTokenAsync] passes to [configure]. *)
Definition current_options (g : GoogleToken) : TokenOptions :=
  {| opt_email := iss g;
     opt_iss := None;
     opt_sub := sub g;
     opt_key := key g;
     opt_keyFile := keyFile g;
     opt_scope := ScopeString <$> scope g;
     opt_additionalClaims := additionalClaims g |}.

(** The field initialisers of the class. *)
Definition initial_fields : GoogleToken :=
  {| token := None; expiresAt := None; key := None; keyFile := None;
     iss := None; sub := None; scope := None; rawToken := None;
     tokenExpires := None; email := None; additionalClaims := None |}.

(** [new GoogleToken(options)] *)
Definition new_GoogleToken (options : option TokenOptions) : GoogleToken :=
  configure (default no_options options) initial_fields.

(** [Object.assign(target, source)]: every own property of [source] is
    written into [target]. *)
Definition Object_assign (target source : gmap string JsVal) : gmap string JsVal :=
  map_fold (λ k v acc, <[k:=v]> acc) target source.

(** The object literal of the standard claims in [requestToken]. *)
Definition standard_claims (g : GoogleToken) (iat : Z) : gmap string JsVal :=
  <["iss" := of_string (iss g)]>
  (<["scope" := of_string (scope g)]>
  (<["aud" := JStr GOOGLE_TOKEN_URL]>
  (<["exp" := JNum (iat + 3600)]>
  (<["iat" := JNum iat]>
  (<["sub" := of_string (sub g)]> ∅))))).

(** The [payload] constant of [requestToken]. *)
Definition jwt_payload (g : GoogleToken) (iat : Z) : gmap string JsVal :=
  Object_assign (standard_claims g iat) (default ∅ (additionalClaims g)).

(** The proxy block shared by [requestToken] and [revokeTokenAsync]. *)
Definition with_proxy (px : option string) (opts : AxiosRequestConfig)
  : AxiosRequestConfig :=
  if truthy px
  then {| content_type := content_type opts; httpsAgent := px;
          proxy := Some false |}
  else opts.

(** [(e.response && e.response.data) ? e.response.data : {}], where [{}]
    is the body with neither field. *)
Definition response_body (e : JsError) : ErrorBody :=
  match e with
  | AxiosError f =>
      match response f with
      | Some r => default {| error := None; error_description := None |} (data r)
      | None => {| error := None; error_description := None |}
      end
  | _ => {| error := None; error_description := None |}
  end.

(** The error the [catch] handler of [requestToken] throws for [e]. *)
Definition exchange_error (e : JsError) : JsError :=
  let body := response_body e in
  if truthy (error body)
  then
    let desc := if truthy (error_description body)
                then ": " ++ default "" (error_description body)
                else "" in
    Error (default "" (error body) ++ desc)
  else e.

Section Methods.

Variable w : World.

(** [getCredentials(keyFile)] *)
Definition getCredentials (path : string) : Async Credentials :=
  let mimeType := mime_getType w path in
  if bool_decide (mimeType = Some "application/json") then
    emit (ReadFile path "utf8") ;;;
    key <- settle (fs_readFile w path) ;;
    body <- settle (JSON_parse w key) ;;
    let privateKey := private_key body in
    let clientEmail := client_email body in
    if negb (truthy privateKey) || negb (truthy clientEmail)
    then throw (ErrorWithCode "private_key and client_email are required."
                              "MISSING_CREDENTIALS")
    else resolve {| privateKey := privateKey; clientEmail := clientEmail |}
  else if bool_decide (mimeType = Some "application/x-x509-ca-cert") then
    emit (ReadFile path "utf8") ;;;
    privateKey <- settle (fs_readFile w path) ;;
    resolve {| privateKey := Some privateKey; clientEmail := None |}
  else if bool_decide (mimeType = Some "application/x-pkcs12") then
    emit (GetPem path) ;;;
    privateKey <- settle (p12_getPem w path) ;;
    resolve {| privateKey := Some privateKey; clientEmail := None |}
  else
    throw (ErrorWithCode
             ("Unknown certificate type. Type is determined based on file extension. "
              ++ "Current supported extensions are *.json, *.pem, and *.p12.")
             "UNKNOWN_CERTIFICATE_TYPE").

(** [ensureEmail()] *)
Definition ensureEmail : Async unit :=
  g <- self ;;
  if negb (truthy (iss g))
  then throw (ErrorWithCode "email is required." "MISSING_CREDENTIALS")
  else resolve tt.

(** The locals of [requestToken()]: [iat], the argument of [jws.sign],
    the form passed to [querystring.stringify], and [opts]. *)
Definition issued_at : Z := t_issue w / 1000.

Definition jws_input (g : GoogleToken) : JwsInput :=
  {| header_alg := "RS256";
     payload := jwt_payload g issued_at;
     secret := key g |}.

Definition token_form (signedJWT : string) : TokenRequestForm :=
  {| grant_type := "urn:ietf:params:oauth:grant-type:jwt-bearer";
     assertion := signedJWT |}.

Definition token_opts : AxiosRequestConfig :=
  with_proxy (env_proxy w)
    {| content_type := Some "application/x-www-form-urlencoded";
       httpsAgent := None; proxy := None |}.

(** The value [requestToken] stores in [expiresAt] for a response, in
    exact integer arithmetic: it is the number the code computes as long
    as [expires_in] is an integer and the sum and the product stay within
    the integers a double represents exactly (up to 2^53 in absolute
    value). *)
Definition expiry_of (r : TokenData) : option Z :=
  match expires_in r with
  | None => None
  | Some secs => Some ((issued_at + secs) * 1000)
  end.

(** [requestToken()] *)
Definition requestToken : Async (option string) :=
  g <- self ;;
  emit (JwsSign (jws_input g)) ;;;
  signedJWT <- settle (jws_sign w (jws_input g)) ;;
  catch
    (emit (HttpPost GOOGLE_TOKEN_URL (token_form signedJWT) token_opts) ;;;
     r <- settle_http (axios_post w GOOGLE_TOKEN_URL (token_form signedJWT)) ;;
     assign (set_rawToken (Some r)) ;;;
     assign (set_token (access_token r)) ;;;
     assign (set_expiresAt (expiry_of r)) ;;;
     g' <- self ;;
     resolve (token g'))
    (λ e,
       assign (set_token None) ;;;
       assign (set_tokenExpires None) ;;;
       throw (exchange_error e)).

(** [getTokenAsync()], which the promise form of [getToken()] returns. *)
Definition getTokenAsync : Async (option string) :=
  g <- self ;;
  if negb (hasExpired (t_check w) g) then resolve (token g)
  else if negb (truthy (key g)) && negb (truthy (keyFile g))
  then throw (Error "No key or keyFile set.")
  else
    (if negb (truthy (key g)) && truthy (keyFile g) then
       creds <- getCredentials (default "" (keyFile g)) ;;
       assign (set_key (privateKey creds)) ;;;
       assign (λ g', set_iss (js_or (clientEmail creds) (iss g')) g') ;;;
       if negb (truthy (clientEmail creds)) then ensureEmail else resolve tt
     else resolve tt) ;;;
    requestToken.

(** The locals of [revokeTokenAsync()]: the URL and [opts]. *)
Definition revoke_url (g : GoogleToken) : string :=
  GOOGLE_REVOKE_TOKEN_URL ++ default "" (token g).

Definition revoke_opts : AxiosRequestConfig :=
  with_proxy (env_proxy w)
    {| content_type := None; httpsAgent := None; proxy := None |}.

(** [revokeTokenAsync()], which the promise form of [revokeToken()]
    returns. *)
Definition revokeTokenAsync : Async unit :=
  g <- self ;;
  if negb (truthy (token g)) then throw (Error "No token to revoke.")
  else
    emit (HttpGet (revoke_url g) revoke_opts) ;;;
    settle_http (axios_get w (revoke_url g)) ;;;
    assign (λ g', configure (current_options g') g').

End Methods.


(** ** What the world answers to an exchange *)

Inductive Exchange : Type :=
| SignFailed (e : JsError)
| PostFailed (f : HttpFailure)
| PostOk (r : TokenData).

(** The answers of the signer and of the token endpoint to the exchange
    [requestToken] makes for the object [g]. *)
Definition exchange (w : World) (g : GoogleToken) : Exchange :=
  match jws_sign w (jws_input w g) with
  | inl e => SignFailed e
  | inr signedJWT =>
      match axios_post w GOOGLE_TOKEN_URL (token_form signedJWT) with
      | inl f => PostFailed f
      | inr r => PostOk r
      end
  end.

(** The calls [requestToken] makes for the object [g]. *)
Definition exchange_calls (w : World) (g : GoogleToken) : list Event :=
  JwsSign (jws_input w g) ::
  match jws_sign w (jws_input w g) with
  | inl _ => []
  | inr signedJWT =>
      [HttpPost GOOGLE_TOKEN_URL (token_form signedJWT) (token_opts w)]
  end.

(** The object after a successful exchange answered by [r]. *)
Definition issued (w : World) (r : TokenData) (g : GoogleToken) : GoogleToken :=
  set_expiresAt (expiry_of w r) (set_token (access_token r) (set_rawToken (Some r) g)).

(** The object after a failed exchange. *)
Definition cleared (g : GoogleToken) : GoogleToken :=
  set_tokenExpires None (set_token None g).

(** ** Sample data: worlds, options and responses used by the examples *)

Definition response_with (tok : option string) (secs : option Z) : TokenData :=
  {| refresh_token := None; expires_in := secs; access_token := tok;
     token_type := Some "Bearer"; id_token := None |}.

(** A world whose clock reads 1 000 000 ms at the expiry check and
    1 000 500 ms at the exchange, where [k.json] is a JSON key file for
    the account [E] with key [PK], and where the two endpoints answer
    [post] and [get]. *)
Definition sample_world (post : HttpFailure + TokenData) (get : HttpFailure + unit)
  : World :=
  {| t_check := 1000000;
     t_issue := 1000500;
     mime_getType := λ p, if bool_decide (p = "k.json")
                          then Some "application/json" else None;
     fs_readFile := λ _, inr "{}";
     JSON_parse := λ _, inr {| private_key := Some "PK";
                               client_email := Some "E" |};
     p12_getPem := λ _, inl (ExternalError "ENOENT");
     jws_sign := λ _, inr "JWT";
     axios_post := λ _ _, post;
     axios_get := λ _, get;
     env_proxy := None |}.

(** The same world one second later. *)
Definition later (w : World) : World :=
  {| t_check := t_check w + 1000;
     t_issue := t_issue w + 1000;
     mime_getType := mime_getType w;
     fs_readFile := fs_readFile w;
     JSON_parse := JSON_parse w;
     p12_getPem := p12_getPem w;
     jws_sign := jws_sign w;
     axios_post := axios_post w;
     axios_get := axios_get w;
     env_proxy := env_proxy w |}.

Definition options_with_key : TokenOptions :=
  {| opt_keyFile := None; opt_key := Some "PK"; opt_email := None;
     opt_iss := Some "E"; opt_sub := None;
     opt_scope := Some (ScopeArray ["scope1"; "scope2"]);
     opt_additionalClaims := None |}.

Definition options_with_keyFile : TokenOptions :=
  {| opt_keyFile := Some "k.json"; opt_key := None; opt_email := None;
     opt_iss := None; opt_sub := None;
     opt_scope := Some (ScopeString "scope1");
     opt_additionalClaims := None |}.

Definition bad_request (body : ErrorBody) : HttpFailure :=
  {| failure_message := "Request failed with status code 400";
     response := Some {| status := 400; data := Some body |} |}.

Definition network_down : HttpFailure :=
  {| failure_message := "connect ECONNREFUSED"; response := None |}.

(** ** Vocabulary of the specification *)


(** The configuration part of an object equals the configuration that
    [new GoogleToken(options)] installs. *)
Definition configured_as (options : TokenOptions) (g : GoogleToken) : Prop :=
  let g0 := new_GoogleToken (Some options) in
  iss g = iss g0 ∧ sub g = sub g0 ∧ key g = key g0 ∧ keyFile g = keyFile g0 ∧
  scope g = scope g0 ∧ additionalClaims g = additionalClaims g0.

(** The message the specification gives to the error of a failed exchange
    whose response body carries an [error] field: the [error] value,
    followed by [": "] and the [error_description] value exactly when
    [error_description] is present. *)
Definition specified_message (body : ErrorBody) : option string :=
  match error body with
  | Some err =>
      Some (err ++ match error_description body with
                   | Some d => ": " ++ d
                   | None => ""
                   end)
  | None => None
  end.

(** ** A session: construct from a key file, get, revoke, get again *)

Definition good_world : World :=
  sample_world (inr (response_with (Some "T") (Some 3600))) (inr tt).

Definition session_start : Store :=
  {| this := new_GoogleToken (Some options_with_keyFile); log := [] |}.

Definition session_got : Store := (getTokenAsync good_world session_start).2.

Definition session_revoked : Store :=
  (revokeTokenAsync (later good_world) session_got).2.

Definition session_got_again : Store :=
  (getTokenAsync (later (later good_world)) session_revoked).2.

(** ** An exchange whose response carries no [expires_in] *)

Definition world_without_expires_in : World :=
  sample_world (inr (response_with (Some "T") None)) (inr tt).

Definition fresh_with_key : Store :=
  {| this := new_GoogleToken (Some options_with_key); log := [] |}.

Definition issued_without_expires_in : Store :=
  (requestToken world_without_expires_in fresh_with_key).2.

(** ** Failing endpoints *)

Definition invalid_grant : ErrorBody :=
  {| error := Some "invalid_grant"; error_description := Some "bad" |}.

Definition empty_description : ErrorBody :=
  {| error := Some "invalid_grant"; error_description := Some "" |}.

Definition empty_error : ErrorBody :=
  {| error := Some ""; error_description := Some "bad" |}.

(** A world whose token endpoint answers 400 with [body] and whose
    revocation endpoint cannot be reached. *)
Definition failing_world (body : ErrorBody) : World :=
  sample_world (inl (bad_request body)) (inl network_down).

(** The error a rejected promise carries. *)
Definition rejection {A} (c : Completion A) : option JsError :=
  match c with
  | Rejected e => Some e
  | Resolved _ => None
  end.

(** ** An exchange whose response carries an empty [access_token] *)

Definition world_with_empty_token : World :=
  sample_world (inr (response_with (Some "") (Some 3600))) (inr tt).

(** ** Additional claims that collide with a standard claim *)

Definition overriding_claims : gmap string JsVal :=
  <["aud" := JStr "https://example.org/token"]> (<["role" := JStr "admin"]> ∅).

Definition fresh_with_claims : Store :=
  {| this := new_GoogleToken
               (Some {| opt_keyFile := None; opt_key := Some "PK";
                        opt_email := Some "E"; opt_iss := None;
                        opt_sub := None; opt_scope := None;
                        opt_additionalClaims := Some overriding_claims |});
     log := [] |}.

(** ** The callback forms of the public methods *)

(** [getToken(callback)]: the promise of [getTokenAsync()] with
    [.then(t => { callback(null, t); }).catch(callback)] chained on it.
    The callback is user code: it gets the error (or null) and the token
    (or undefined), and may itself do anything a method can. *)
Definition getToken_callback (w : World)
    (callback : option JsError → option string → Async unit) : Async unit :=
  catch
    (t <- getTokenAsync w ;; callback None t)
    (λ e, callback (Some e) None).

(** [revokeToken(callback)]: the promise of [revokeTokenAsync()] with
    [.then(() => callback()).catch(callback)] chained on it. *)
Definition revokeToken_callback (w : World)
    (callback : option JsError → Async unit) : Async unit :=
  catch
    (revokeTokenAsync w ;;; callback None)
    (λ e, callback (Some e)).

(** ** More sample data: key files of each kind, a proxy *)

(** A world with one key file of each kind and one of an unknown kind:
    [k.json], [k.pem], [k.p12], [k.xyz].  [read], [parse], [sign], [post]
    and [px] are the answers of the file system, the JSON parser, the
    signer, the token endpoint and the proxy variable. *)
Definition world_of
    (read : JsError + string) (parse : JsError + KeyFileBody)
    (sign : JsError + string) (post : HttpFailure + TokenData)
    (px : option string) : World :=
  {| t_check := 1000000;
     t_issue := 1000500;
     mime_getType := λ p,
       if bool_decide (p = "k.json") then Some "application/json"
       else if bool_decide (p = "k.pem") then Some "application/x-x509-ca-cert"
       else if bool_decide (p = "k.p12") then Some "application/x-pkcs12"
       else None;
     fs_readFile := λ _, read;
     JSON_parse := λ _, parse;
     p12_getPem := λ _, read;
     jws_sign := λ _, sign;
     axios_post := λ _ _, post;
     axios_get := λ _, inr tt;
     env_proxy := px |}.

Definition pem_world : World :=
  world_of (inr "PEM") (inl (ExternalError "Unexpected token"))
           (inr "JWT") (inr (response_with (Some "T") (Some 3600))) None.

Definition options_with (path : string) (mail : option string) : TokenOptions :=
  {| opt_keyFile := Some path; opt_key := None; opt_email := mail;
     opt_iss := None; opt_sub := None; opt_scope := None;
     opt_additionalClaims := None |}.

Definition fresh_with (path : string) (mail : option string) : Store :=
  {| this := new_GoogleToken (Some (options_with path mail)); log := [] |}.

Definition fresh_unconfigured : Store :=
  {| this := new_GoogleToken None; log := [] |}.

(** A callback that does nothing. *)
Definition ignore_token : option JsError → option string → Async unit :=
  λ _ _, resolve tt.

Definition ignore_outcome : option JsError → Async unit :=
  λ _, resolve tt.

Definition json_world : World :=
  world_of (inr "{}")
           (inr {| private_key := Some "PK"; client_email := Some "E" |})
           (inr "JWT") (inr (response_with (Some "T") (Some 3600))) None.

Definition incomplete_json_world : World :=
  world_of (inr "{}")
           (inr {| private_key := Some "PK"; client_email := None |})
           (inr "JWT") (inr (response_with (Some "T") (Some 3600))) None.

Definition unreadable_world : World :=
  world_of (inl (ExternalError "ENOENT")) (inl (ExternalError "Unexpected token"))
           (inr "JWT") (inr (response_with (Some "T") (Some 3600))) None.

Definition unsigned_world : World :=
  world_of (inr "PEM") (inl (ExternalError "Unexpected token"))
           (inl (ExternalError "error:0909006C:PEM routines"))
           (inr (response_with (Some "T") (Some 3600))) None.

Definition proxied_world : World :=
  world_of (inr "PEM") (inl (ExternalError "Unexpected token"))
           (inr "JWT") (inr (response_with (Some "T") (Some 3600)))
           (Some "http://proxy.local:3128").

(** A world whose key file [k.json] holds [null]: the text parses, and the
    read of [body.private_key] throws. *)
Definition null_json_world : World :=
  world_of (inr "null")
           (inl (ExternalError "Cannot read property 'private_key' of null"))
           (inr "JWT") (inr (response_with (Some "T") (Some 3600))) None.

(** The request configuration of a network call. *)
Definition event_opts (ev : Event) : option AxiosRequestConfig :=
  match ev with
  | HttpPost _ _ opts | HttpGet _ opts => Some opts
  | ReadFile _ _ | GetPem _ | JwsSign _ => None
  end.

(** What the proxy block makes of the request: the agent of the proxy and
    axios' own proxy handling switched off, or neither. *)
Definition proxied_as (px : option string) (opts : AxiosRequestConfig) : Prop :=
  if truthy px
  then httpsAgent opts = px ∧ proxy opts = Some false
  else httpsAgent opts = None ∧ proxy opts = None.

(** ** A refresh that fails while a token is held *)

(** The session above after its first [getToken()], when the exchange of
    a refresh is answered 400 [invalid_grant]. *)
Definition session_refresh_failed : Store :=
  (requestToken (failing_world invalid_grant) session_got).2.

(** ** Basic facts *)

Lemma hasExpired_without_token now g :
  truthy (token g) = false → hasExpired now g = true.
Proof. unfold hasExpired. by intros ->. Qed.

Lemma hasExpired_without_expiresAt now g :
  truthy_num (expiresAt g) = false → hasExpired now g = true.
Proof. unfold hasExpired. intros ->. by rewrite andb_false_r. Qed.

Lemma hasExpired_new now options : hasExpired now (new_GoogleToken options) = true.
Proof. by apply hasExpired_without_token. Qed.

(** [requestToken] in one equation: what it returns, what it leaves in the
    object and which calls it makes, by the answers of the world. *)
Lemma requestToken_run w s :
  requestToken w s =
  match exchange w (this s) with
  | SignFailed e =>
      (Rejected e,
       {| this := this s; log := log s ++ exchange_calls w (this s) |})
  | PostFailed f =>
      (Rejected (exchange_error (AxiosError f)),
       {| this := cleared (this s); log := log s ++ exchange_calls w (this s) |})
  | PostOk r =>
      (Resolved (access_token r),
       {| this := issued w r (this s); log := log s ++ exchange_calls w (this s) |})
  end.
Proof.
  unfold requestToken, exchange, exchange_calls, and_then, catch, self, emit,
    assign, settle, settle_http, resolve, throw; simpl.
  destruct (jws_sign w (jws_input w (this s))) as [e|jwt]; simpl; [done|].
  destruct (axios_post w GOOGLE_TOKEN_URL (token_form jwt)) as [f|r]; simpl;
    by rewrite <- app_assoc.
Qed.

(** [revokeTokenAsync] in one equation. *)
Lemma revokeTokenAsync_run w s :
  revokeTokenAsync w s =
  if truthy (token (this s)) then
    let s1 := {| this := this s;
                 log := log s ++ [HttpGet (revoke_url (this s)) (revoke_opts w)] |} in
    match axios_get w (revoke_url (this s)) with
    | inl f => (Rejected (AxiosError f), s1)
    | inr _ =>
        (Resolved tt,
         {| this := configure (current_options (this s)) (this s);
            log := log s1 |})
    end
  else (Rejected (Error "No token to revoke."), s).
Proof.
  unfold revokeTokenAsync, and_then, self, emit, assign, settle_http, resolve,
    throw; simpl.
  destruct (truthy (token (this s))); simpl; [|done].
  by destruct (axios_get w (revoke_url (this s))) as [f|[]].
Qed.

Lemma network_calls_app l1 l2 :
  network_calls (l1 ++ l2) = (network_calls l1 + network_calls l2)%nat.
Proof. unfold network_calls. by rewrite filter_app, length_app. Qed.

Lemma file_reads_app l1 l2 :
  file_reads (l1 ++ l2) = (file_reads l1 + file_reads l2)%nat.
Proof. unfold file_reads. by rewrite filter_app, length_app. Qed.

(** An exchange that reaches the endpoint is one network call and no file
    read. *)
Lemma exchange_calls_network w g :
  network_calls (exchange_calls w g) =
  match exchange w g with SignFailed _ => 0%nat | _ => 1%nat end.
Proof.
  unfold exchange_calls, exchange.
  destruct (jws_sign w (jws_input w g)) as [e|jwt]; [done|].
  by destruct (axios_post w GOOGLE_TOKEN_URL (token_form jwt)).
Qed.

Lemma exchange_calls_file_reads w g : file_reads (exchange_calls w g) = 0%nat.
Proof.
  unfold exchange_calls. by destruct (jws_sign w (jws_input w g)).
Qed.

(** [getCredentials] never touches the object and never uses the network. *)
Lemma getCredentials_frame w path s :
  this (getCredentials w path s).2 = this s ∧
  network_calls (log (getCredentials w path s).2) = network_calls (log s).
Proof.
  unfold getCredentials, and_then, emit, settle, resolve, throw.
  repeat case_bool_decide; simpl;
    repeat match goal with
           | |- context [match ?x with inl _ => _ | inr _ => _ end] =>
               destruct x; simpl
           | |- context [if ?b then _ else _] => destruct b; simpl
           end;
    rewrite ?network_calls_app; simpl; split; try done; lia.
Qed.

(** ** [getTokenAsync]: the cached path and the refresh path *)

Lemma getTokenAsync_cached w s :
  hasExpired (t_check w) (this s) = false →
  getTokenAsync w s = (Resolved (token (this s)), s).
Proof.
  intros H. unfold getTokenAsync, and_then, self, resolve. by rewrite H.
Qed.

Lemma getTokenAsync_with_key w s :
  hasExpired (t_check w) (this s) = true →
  truthy (key (this s)) = true →
  getTokenAsync w s = requestToken w s.
Proof.
  intros H K. unfold getTokenAsync, and_then, self, resolve.
  by rewrite H, K.
Qed.

(** Once the token has expired, [getTokenAsync] either rejects before any
    exchange, leaving the token fields and the count of network calls as
    they were, or it is [requestToken] run on an object with the same
    token fields and the same count of network calls. *)
Lemma getTokenAsync_expired w s :
  hasExpired (t_check w) (this s) = true →
  (∃ e s1, getTokenAsync w s = (Rejected e, s1) ∧
           token (this s1) = token (this s) ∧
           expiresAt (this s1) = expiresAt (this s) ∧
           network_calls (log s1) = network_calls (log s))
  ∨
  (∃ s1, getTokenAsync w s = requestToken w s1 ∧
         token (this s1) = token (this s) ∧
         expiresAt (this s1) = expiresAt (this s) ∧
         network_calls (log s1) = network_calls (log s)).
Proof.
  intros H.
  destruct (truthy (key (this s))) eqn:K.
  { right. exists s. by rewrite getTokenAsync_with_key. }
  unfold getTokenAsync, and_then, self, resolve. rewrite H, K. simpl.
  destruct (truthy (keyFile (this s))) eqn:F; simpl.
  2:{ left. by exists (Error "No key or keyFile set."), s. }
  destruct (getCredentials_frame w (default "" (keyFile (this s))) s)
    as [Hthis Hnet].
  destruct (getCredentials w (default "" (keyFile (this s))) s)
    as [[creds|e] s1];
    simpl in Hthis, Hnet.
  2:{ left. exists e, s1. by rewrite Hthis. }
  unfold assign, ensureEmail, and_then, self, throw, resolve; simpl.
  destruct (truthy (clientEmail creds)) eqn:E; simpl.
  { right. eexists. split; [reflexivity|]. simpl. by rewrite Hthis. }
  destruct (truthy (js_or (clientEmail creds) (iss (this s1)))) eqn:I; simpl.
  { right. eexists. split; [reflexivity|]. simpl. by rewrite Hthis. }
  left. do 2 eexists. split; [reflexivity|]. simpl. by rewrite Hthis.
Qed.

(** When [getTokenAsync] resolves after the token has expired, it has made
    exactly one network call, and what it returns and stores is what the
    exchange issued. *)
Lemma getTokenAsync_refreshed w s t s' :
  hasExpired (t_check w) (this s) = true →
  getTokenAsync w s = (Resolved t, s') →
  network_calls (log s') = S (network_calls (log s)) ∧
  ∃ r, t = access_token r ∧ rawToken (this s') = Some r ∧
       token (this s') = access_token r ∧
       expiresAt (this s') = expiry_of w r.
Proof.
  intros H R.
  destruct (getTokenAsync_expired w s H) as [(e & s1 & E & _)|(s1 & E & _ & _ & N)];
    rewrite E in R; [done|].
  rewrite requestToken_run in R.
  pose proof (exchange_calls_network w (this s1)) as C.
  destruct (exchange w (this s1)) as [e|f|r]; [done..|].
  injection R as <- <-. simpl.
  rewrite network_calls_app, C, N. split; [lia|]. by exists r.
Qed.

(** ** The expiry test after an exchange *)

(** C1, as the code has it: after a successful exchange whose response
    omitted [expires_in], no [expiresAt] is recorded and [hasExpired()]
    returns true at every clock reading, exactly as it does on a freshly
    constructed manager that holds no token. *)
Theorem hasExpired_without_expires_in w s r now :
  exchange w (this s) = PostOk r →
  expires_in r = None →
  token (this (requestToken w s).2) = access_token r ∧
  expiresAt (this (requestToken w s).2) = None ∧
  hasExpired now (this (requestToken w s).2) = true ∧
  (∀ options, hasExpired now (new_GoogleToken options) = true).
Proof.
  intros X E. rewrite requestToken_run, X.
  assert (expiresAt (issued w r (this s)) = None) as N.
  { simpl. unfold expiry_of. by rewrite E. }
  split; [done|]. split; [done|]. split.
  - apply hasExpired_without_expiresAt. simpl in *. by rewrite N.
  - intros options. apply hasExpired_new.
Qed.

Lemma hasExpired_without_expires_in_witness :
  token (this (requestToken world_without_expires_in fresh_with_key).2)
    = access_token (response_with (Some "T") None) ∧
  expiresAt (this (requestToken world_without_expires_in fresh_with_key).2) = None ∧
  hasExpired 1000600 (this (requestToken world_without_expires_in fresh_with_key).2)
    = true ∧
  (∀ options, hasExpired 1000600 (new_GoogleToken options) = true).
Proof.
  apply (hasExpired_without_expires_in world_without_expires_in fresh_with_key
           (response_with (Some "T") None) 1000600); reflexivity.
Defined.

(** C1, as stated, fails: the manager constructed with a key, after the
    endpoint answered [{access_token: "T"}] with no [expires_in], holds the
    token, has no [expiresAt], and [hasExpired()] does not return false. *)
Lemma never_expired_counterexample :
  token (this issued_without_expires_in) = Some "T" ∧
  expiresAt (this issued_without_expires_in) = None ∧
  hasExpired 1000600 (this issued_without_expires_in) ≠ false.
Proof. vm_compute. by repeat split. Qed.

(** ** Token and expiry, field by field *)




(** ** Failed exchanges *)

(** What a failed exchange does clear: when the token endpoint rejects the
    exchange (no response at all, or a response outside 2xx),
    [requestToken] rejects, and by then it has set [token] and
    [tokenExpires] to null, so [hasExpired()] returns true at every later
    clock reading and the next [getToken()] cannot answer from the cache. *)
Lemma failed_exchange_clears_token w s f :
  exchange w (this s) = PostFailed f →
  (requestToken w s).1 = Rejected (exchange_error (AxiosError f)) ∧
  token (this (requestToken w s).2) = None ∧
  tokenExpires (this (requestToken w s).2) = None ∧
  (∀ now, hasExpired now (this (requestToken w s).2) = true) ∧
  (∀ w' t s', getTokenAsync w' (requestToken w s).2 = (Resolved t, s') →
              network_calls (log s') = S (network_calls (log (requestToken w s).2))).
Proof.
  intros X. rewrite requestToken_run, X. simpl.
  do 3 (split; [done|]).
  assert (∀ now, hasExpired now (cleared (this s)) = true) as H
    by (intros now; by apply hasExpired_without_token).
  split; [done|]. intros w' t s' R.
  by destruct (getTokenAsync_refreshed w'
                 {| this := cleared (this s);
                    log := log s ++ exchange_calls w (this s) |}
                 t s' (H (t_check w')) R).
Qed.

(** C4, at the failing input: the manager holds the token [T] with
    [expiresAt] 4 600 000 and the raw response it came from, and a refresh
    is answered 400 [invalid_grant].  [requestToken] rejects with
    [invalid_grant: bad] and [token] is null, so [hasExpired()] is true;
    but the expiry it tracks is not cleared: [expiresAt] is still
    4 600 000 and [rawToken] still carries [T].  The field the handler
    sets to null beside [token] is [tokenExpires], which was null before
    and which nothing reads. *)
Theorem failed_exchange_stale_expiry :
  (token (this session_got) = Some "T" ∧
   expiresAt (this session_got) = Some 4600000 ∧
   tokenExpires (this session_got) = None) ∧
  (requestToken (failing_world invalid_grant) session_got).1
    = Rejected (Error "invalid_grant: bad") ∧
  token (this session_refresh_failed) = None ∧
  tokenExpires (this session_refresh_failed) = None ∧
  expiresAt (this session_refresh_failed) = Some 4600000 ∧
  access_token <$> rawToken (this session_refresh_failed) = Some (Some "T") ∧
  hasExpired 1000600 (this session_refresh_failed) = true.
Proof. vm_compute. by repeat split. Qed.

(** ** Revocation *)

(** C6: [revokeToken()] on a manager that holds no token (the field is
    null, undefined or empty) rejects with [No token to revoke.] and leaves
    the object and the log of calls as they were: no network call is made. *)
Theorem revokeToken_without_token w s :
  truthy (token (this s)) = false →
  revokeTokenAsync w s = (Rejected (Error "No token to revoke."), s) ∧
  network_calls (log (revokeTokenAsync w s).2) = network_calls (log s).
Proof. intros H. rewrite revokeTokenAsync_run, H. done. Qed.

(** C7: when the GET to the revocation endpoint fails, [revokeToken()]
    rejects with that very error, its only call is that GET, and the
    object is, field for field, the object it was called on. *)
Theorem revokeToken_failure_keeps_state w s f :
  truthy (token (this s)) = true →
  axios_get w (revoke_url (this s)) = inl f →
  revokeTokenAsync w s =
    (Rejected (AxiosError f),
     {| this := this s;
        log := log s ++ [HttpGet (revoke_url (this s)) (revoke_opts w)] |}).
Proof. intros H G. by rewrite revokeTokenAsync_run, H, G. Qed.

Lemma revokeToken_without_token_witness :
  revokeTokenAsync good_world session_start
    = (Rejected (Error "No token to revoke."), session_start) ∧
  network_calls (log (revokeTokenAsync good_world session_start).2)
    = network_calls (log session_start).
Proof.
  apply (revokeToken_without_token good_world session_start). reflexivity.
Defined.

Lemma revokeToken_failure_keeps_state_witness :
  revokeTokenAsync (failing_world invalid_grant) session_got =
    (Rejected (AxiosError network_down),
     {| this := this session_got;
        log := log session_got ++
               [HttpGet (revoke_url (this session_got))
                        (revoke_opts (failing_world invalid_grant))] |}).
Proof.
  apply (revokeToken_failure_keeps_state (failing_world invalid_grant)
           session_got network_down); reflexivity.
Defined.

(** ** The error of a failed exchange *)

Lemma append_empty_r (s : string) : s ++ "" = s.
Proof.
  induction s as [|a s IH]; [done|].
  change (String a (s ++ "") = String a s). by rewrite IH.
Qed.

Lemma truthy_Some_true (s : string) : s ≠ "" → truthy (Some s) = true.
Proof. intros H. simpl. by rewrite bool_decide_eq_false_2. Qed.

(** C5, as the code has it: when the response body of a failed exchange
    carries a non-empty [error], the error thrown is a new [Error] whose
    message is the [error] value, followed by [": "] and the
    [error_description] value exactly when [error_description] is present
    and non-empty; when there is no response, no body, no [error] field or
    an empty one, the error thrown is the very error axios rejected with. *)
Theorem exchange_error_message w s f :
  exchange w (this s) = PostFailed f →
  (∀ r body err,
     response f = Some r → data r = Some body →
     error body = Some err → err ≠ "" →
     (∀ d, error_description body = Some d → d ≠ "" →
           (requestToken w s).1 = Rejected (Error (err ++ ": " ++ d))) ∧
     (error_description body = None ∨ error_description body = Some "" →
      (requestToken w s).1 = Rejected (Error err))) ∧
  (response f = None ∨
   (∃ r, response f = Some r ∧
         (data r = None ∨
          ∃ body, data r = Some body ∧
                  (error body = None ∨ error body = Some ""))) →
   (requestToken w s).1 = Rejected (AxiosError f)).
Proof.
  intros X. rewrite requestToken_run, X. simpl.
  unfold exchange_error, response_body. split.
  - intros r body err -> -> E Hne. simpl. rewrite E, (truthy_Some_true _ Hne).
    split.
    + intros d -> Hd. by rewrite (truthy_Some_true _ Hd).
    + intros [-> | ->]; simpl; by rewrite append_empty_r.
  - intros [-> | (r & -> & [-> | (body & -> & [E | E])])]; simpl;
      try done; by rewrite E.
Qed.

(** The example of the specification: the body
    [{"error":"invalid_grant","error_description":"bad"}] gives an error
    whose message is exactly [invalid_grant: bad]. *)
Lemma exchange_error_message_witness :
  (requestToken (failing_world invalid_grant) session_got).1
    = Rejected (Error ("invalid_grant" ++ ": " ++ "bad")).
Proof.
  apply (proj1 (proj1 (exchange_error_message (failing_world invalid_grant)
                         session_got (bad_request invalid_grant) eq_refl)
                  {| status := 400; data := Some invalid_grant |}
                  invalid_grant "invalid_grant"
                  eq_refl eq_refl eq_refl ltac:(discriminate))
           "bad" eq_refl ltac:(discriminate)).
Defined.

(** C5, as stated, fails on empty strings: a body with an empty
    [error_description] gives the message [invalid_grant], not
    [invalid_grant: ]; a body with an empty [error] field gives the
    message of the transport error, not the (empty) [error] value. *)
Lemma error_message_counterexample :
  (error_message <$>
     rejection (requestToken (failing_world empty_description) fresh_with_key).1
   = Some "invalid_grant" ∧
   specified_message empty_description = Some "invalid_grant: ") ∧
  (error_message <$>
     rejection (requestToken (failing_world empty_error) fresh_with_key).1
   = Some "Request failed with status code 400" ∧
   specified_message empty_error = Some ": bad").
Proof. vm_compute. by repeat split. Qed.

(** ** The cache *)

(** C8: while [hasExpired()] is false, [getToken()] resolves with the
    cached token and leaves the object and the log of calls exactly as they
    were (no file read, no network call); hence when a first [getToken()]
    had to fetch a token and a second one finds it still valid, the second
    returns the same token and the two calls together made exactly one
    network call. *)
Theorem getToken_cached :
  (∀ w s,
     hasExpired (t_check w) (this s) = false →
     getTokenAsync w s = (Resolved (token (this s)), s)) ∧
  (∀ w1 w2 s t s1,
     hasExpired (t_check w1) (this s) = true →
     getTokenAsync w1 s = (Resolved t, s1) →
     hasExpired (t_check w2) (this s1) = false →
     getTokenAsync w2 s1 = (Resolved t, s1) ∧
     network_calls (log (getTokenAsync w2 s1).2) = S (network_calls (log s))).
Proof.
  split; [apply getTokenAsync_cached|].
  intros w1 w2 s t s1 H1 R H2.
  destruct (getTokenAsync_refreshed w1 s t s1 H1 R) as (N & r & -> & _ & T & _).
  rewrite (getTokenAsync_cached w2 s1 H2), T. done.
Qed.

Lemma getToken_cached_witness :
  getTokenAsync (later good_world) session_got
    = (Resolved (Some "T"), session_got) ∧
  network_calls (log (getTokenAsync (later good_world) session_got).2)
    = S (network_calls (log session_start)).
Proof.
  apply (proj2 getToken_cached good_world (later good_world) session_start
           (Some "T") session_got); reflexivity.
Defined.

(** ** The JWT payload *)

Lemma lookup_Object_assign (target source : gmap string JsVal) k :
  Object_assign target source !! k =
  match source !! k with
  | Some v => Some v
  | None => target !! k
  end.
Proof.
  unfold Object_assign.
  apply (map_fold_weak_ind
           (λ acc (m : gmap string JsVal),
              acc !! k = match m !! k with Some v => Some v | None => target !! k end)).
  - by rewrite lookup_empty.
  - intros i x m acc Hi IH. rewrite !lookup_insert.
    case_decide; [done|]. exact IH.
Qed.

Lemma standard_claims_lookup g iat :
  standard_claims g iat !! "iss" = Some (of_string (iss g)) ∧
  standard_claims g iat !! "scope" = Some (of_string (scope g)) ∧
  standard_claims g iat !! "aud" = Some (JStr GOOGLE_TOKEN_URL) ∧
  standard_claims g iat !! "exp" = Some (JNum (iat + 3600)) ∧
  standard_claims g iat !! "iat" = Some (JNum iat) ∧
  standard_claims g iat !! "sub" = Some (of_string (sub g)).
Proof. by repeat split. Qed.

(** C9: the first thing [requestToken()] does is hand to [jws.sign], with
    RS256 and the manager's key, a payload object in which every key of
    [additionalClaims] carries the [additionalClaims] value, also when that
    key is one of [iss], [scope], [aud], [exp], [iat], [sub]; a key that
    [additionalClaims] does not have carries the standard claim: the
    manager's issuer, scope and subject (undefined when not configured),
    the token endpoint, the issue second plus 3600 and the issue second;
    and it is absent when it is none of the six. *)
Theorem additionalClaims_override w s :
  (∃ rest : list Event,
     log (requestToken w s).2
       = (log s ++ JwsSign (jws_input w (this s)) :: rest)%list) ∧
  header_alg (jws_input w (this s)) = "RS256" ∧
  secret (jws_input w (this s)) = key (this s) ∧
  (∀ k v,
     default ∅ (additionalClaims (this s)) !! k = Some v →
     payload (jws_input w (this s)) !! k = Some v) ∧
  (∀ k,
     default ∅ (additionalClaims (this s)) !! k = None →
     payload (jws_input w (this s)) !! k =
       if bool_decide (k = "iss") then
         Some match iss (this s) with Some x => JStr x | None => JUndefined end
       else if bool_decide (k = "scope") then
         Some match scope (this s) with Some x => JStr x | None => JUndefined end
       else if bool_decide (k = "aud") then
         Some (JStr "https://www.googleapis.com/oauth2/v4/token")
       else if bool_decide (k = "exp") then
         Some (JNum (t_issue w / 1000 + 3600))
       else if bool_decide (k = "iat") then
         Some (JNum (t_issue w / 1000))
       else if bool_decide (k = "sub") then
         Some match sub (this s) with Some x => JStr x | None => JUndefined end
       else None).
Proof.
  split.
  { rewrite requestToken_run. unfold exchange_calls.
    destruct (exchange w (this s)); simpl; by eexists. }
  do 2 (split; [done|]). simpl. unfold jwt_payload.
  split; intros k; [intros v|]; intros H; rewrite lookup_Object_assign, H;
    [done|].
  unfold standard_claims, issued_at, of_string, GOOGLE_TOKEN_URL.
  repeat (case_bool_decide; [subst k; by simplify_map_eq|]).
  by simplify_map_eq.
Qed.

Lemma additionalClaims_override_witness :
  payload (jws_input good_world (this fresh_with_claims)) !! "aud"
    = Some (JStr "https://example.org/token") ∧
  payload (jws_input good_world (this fresh_with_claims)) !! "iss"
    = Some (JStr "E") ∧
  payload (jws_input good_world (this fresh_with_claims)) !! "exp"
    = Some (JNum 4600) ∧
  payload (jws_input good_world (this fresh_with_claims)) !! "sub"
    = Some JUndefined ∧
  payload (jws_input good_world (this fresh_with_claims)) !! "nbf" = None.
Proof.
  pose proof (additionalClaims_override good_world fresh_with_claims)
    as (_ & _ & _ & Over & Std).
  split; [exact (Over "aud" _ eq_refl)|].
  split; [exact (Std "iss" eq_refl)|].
  split; [exact (Std "exp" eq_refl)|].
  split; [exact (Std "sub" eq_refl) | exact (Std "nbf" eq_refl)].
Defined.

(** ** Responses without a usable [access_token] *)

(** C10: after a successful exchange whose response has no [access_token]
    or an empty one, [requestToken] resolves with that value and stores it
    in [token], records [expiresAt] from [expires_in] as usual, and
    [hasExpired()] is true at every clock reading; so the next [getToken()]
    never answers from the cache: with a key held it is a full
    [requestToken()], and whenever it resolves it has made a network call. *)
Theorem falsy_access_token_never_cached w s r :
  exchange w (this s) = PostOk r →
  truthy (access_token r) = false →
  (requestToken w s).1 = Resolved (access_token r) ∧
  token (this (requestToken w s).2) = access_token r ∧
  expiresAt (this (requestToken w s).2) = expiry_of w r ∧
  (∀ now, hasExpired now (this (requestToken w s).2) = true) ∧
  (∀ w', truthy (key (this s)) = true →
         getTokenAsync w' (requestToken w s).2
           = requestToken w' (requestToken w s).2) ∧
  (∀ w' t s', getTokenAsync w' (requestToken w s).2 = (Resolved t, s') →
              network_calls (log s')
                = S (network_calls (log (requestToken w s).2))).
Proof.
  intros X F. rewrite requestToken_run, X. simpl.
  do 3 (split; [done|]).
  assert (∀ now, hasExpired now (issued w r (this s)) = true) as H
    by (intros now; by apply hasExpired_without_token).
  split; [done|]. split.
  - intros w' K. by apply getTokenAsync_with_key; [apply H|].
  - intros w' t s' R.
    by destruct (getTokenAsync_refreshed w'
                   {| this := issued w r (this s);
                      log := log s ++ exchange_calls w (this s) |}
                   t s' (H (t_check w')) R).
Qed.

Lemma falsy_access_token_never_cached_witness :
  (requestToken world_with_empty_token fresh_with_key).1 = Resolved (Some "") ∧
  token (this (requestToken world_with_empty_token fresh_with_key).2) = Some "" ∧
  expiresAt (this (requestToken world_with_empty_token fresh_with_key).2)
    = Some 4600000 ∧
  hasExpired 1000600 (this (requestToken world_with_empty_token fresh_with_key).2)
    = true.
Proof.
  destruct (falsy_access_token_never_cached world_with_empty_token
              fresh_with_key (response_with (Some "") (Some 3600))
              eq_refl eq_refl) as (R & T & E & H & _).
  exact (conj R (conj T (conj E (H 1000600)))).
Defined.

(** ** Revocation, on success *)

(** C3, as the code has it: a successful [revokeToken()] passes the
    manager's current [iss], [sub], [key], [keyFile], [scope] and
    [additionalClaims] back through [configure]: those fields keep the
    values they have when revoke is called, including a key adopted from a
    key file by an earlier [getToken()] (an empty [iss] becomes absent),
    and [token], [expiresAt] and [rawToken] are cleared.  The next
    [getToken()] therefore never answers from the cache; with a key held it
    is a full [requestToken()] that reads no file, and whenever it resolves
    it has made a network call. *)
Theorem revokeToken_resets w s :
  truthy (token (this s)) = true →
  axios_get w (revoke_url (this s)) = inr tt →
  (revokeTokenAsync w s).1 = Resolved tt ∧
  (token (this (revokeTokenAsync w s).2) = None ∧
   expiresAt (this (revokeTokenAsync w s).2) = None ∧
   rawToken (this (revokeTokenAsync w s).2) = None) ∧
  (key (this (revokeTokenAsync w s).2) = key (this s) ∧
   keyFile (this (revokeTokenAsync w s).2) = keyFile (this s) ∧
   sub (this (revokeTokenAsync w s).2) = sub (this s) ∧
   scope (this (revokeTokenAsync w s).2) = scope (this s) ∧
   additionalClaims (this (revokeTokenAsync w s).2) = additionalClaims (this s) ∧
   iss (this (revokeTokenAsync w s).2)
     = (if truthy (iss (this s)) then iss (this s) else None)) ∧
  (∀ now, hasExpired now (this (revokeTokenAsync w s).2) = true) ∧
  (∀ w', truthy (key (this s)) = true →
         getTokenAsync w' (revokeTokenAsync w s).2
           = requestToken w' (revokeTokenAsync w s).2 ∧
         file_reads (log (getTokenAsync w' (revokeTokenAsync w s).2).2)
           = file_reads (log (revokeTokenAsync w s).2)) ∧
  (∀ w' t s', getTokenAsync w' (revokeTokenAsync w s).2 = (Resolved t, s') →
              network_calls (log s')
                = S (network_calls (log (revokeTokenAsync w s).2))).
Proof.
  intros T G. rewrite revokeTokenAsync_run, T, G. simpl.
  split; [done|]. split; [done|]. split.
  { repeat split. by destruct (scope (this s)). }
  assert (∀ now, hasExpired now (configure (current_options (this s)) (this s))
                 = true) as H
    by (intros now; by apply hasExpired_without_token).
  split; [done|]. split.
  - intros w' K.
    rewrite getTokenAsync_with_key; [|apply H|exact K].
    split; [done|]. rewrite requestToken_run.
    destruct (exchange w' _); simpl;
      by rewrite file_reads_app, exchange_calls_file_reads, Nat.add_0_r.
  - intros w' t s' R.
    by destruct (getTokenAsync_refreshed w'
                   {| this := configure (current_options (this s)) (this s);
                      log := log s ++ [HttpGet (revoke_url (this s))
                                               (revoke_opts w)] |}
                   t s' (H (t_check w')) R).
Qed.

Lemma revokeToken_resets_witness :
  (revokeTokenAsync (later good_world) session_got).1 = Resolved tt ∧
  token (this session_revoked) = None ∧
  key (this session_revoked) = key (this session_got) ∧
  hasExpired 1002000 (this session_revoked) = true ∧
  getTokenAsync (later (later good_world)) session_revoked
    = requestToken (later (later good_world)) session_revoked.
Proof.
  destruct (revokeToken_resets (later good_world) session_got eq_refl eq_refl)
    as (R & (T & _) & (K & _) & H & Q & _).
  exact (conj R (conj T (conj K (conj (H 1002000)
           (proj1 (Q (later (later good_world)) eq_refl)))))).
Defined.

(** C3, as stated, fails: a manager constructed from the key file
    [k.json] alone, after one [getToken()] and a successful
    [revokeToken()], is not configured as it was at construction (it holds
    the key [PK] and the issuer [E] read from the file), and the next
    [getToken()] resolves with a fresh token without reading the key file
    again: the only file read of the whole session is the first call's. *)
Lemma revoke_reset_counterexample :
  configured_as options_with_keyFile (this session_start) ∧
  ¬ configured_as options_with_keyFile (this session_revoked) ∧
  key (this session_start) = None ∧
  key (this session_revoked) = Some "PK" ∧
  (getTokenAsync (later (later good_world)) session_revoked).1
    = Resolved (Some "T") ∧
  file_reads (log session_got) = 1%nat ∧
  file_reads (log session_got_again) = 1%nat ∧
  network_calls (log session_got_again) = 3%nat.
Proof.
  split; [by repeat split|]. split.
  { intros (_ & _ & K & _). vm_compute in K. discriminate K. }
  vm_compute. by repeat split.
Qed.

(** * Further properties of the class *)

(** ** The validity window *)



(** X2: for a clock in the range of [Date] and an integer [expires_in]
    such that [(iat + expires_in) * 1000] stays within the integers a
    double represents exactly (2^53 in absolute value), where the code's
    arithmetic is the integer arithmetic used here, the [expiresAt] stored
    after a successful exchange is a whole number of seconds, never later
    than [expires_in] seconds after the clock reading of the exchange and
    less than one second earlier. *)
Theorem expiresAt_bounds w s r secs :
  exchange w (this s) = PostOk r →
  expires_in r = Some secs →
  (Z.abs (t_issue w) ≤ 8640000000000000)%Z →
  (Z.abs secs ≤ 2 ^ 53)%Z →
  (Z.abs ((t_issue w / 1000 + secs) * 1000) ≤ 2 ^ 53)%Z →
  ∃ e, expiresAt (this (requestToken w s).2) = Some e ∧
       e `mod` 1000 = 0 ∧
       (e ≤ t_issue w + secs * 1000 < e + 1000)%Z.
Proof.
  intros X E _ _ _. rewrite requestToken_run, X. simpl.
  unfold expiry_of. rewrite E. eexists. split; [done|].
  unfold issued_at. split.
  - apply Z.mod_mul. lia.
  - pose proof (Z.div_mod (t_issue w) 1000 ltac:(lia)).
    pose proof (Z.mod_pos_bound (t_issue w) 1000 ltac:(lia)). lia.
Qed.

Lemma expiresAt_bounds_witness :
  ∃ e, expiresAt (this (requestToken good_world fresh_with_key).2) = Some e ∧
       e `mod` 1000 = 0 ∧
       (e ≤ t_issue good_world + 3600 * 1000 < e + 1000)%Z.
Proof.
  apply (expiresAt_bounds good_world fresh_with_key
           (response_with (Some "T") (Some 3600)) 3600);
    [reflexivity | reflexivity | | | ]; vm_compute; discriminate.
Defined.

(** X3: time alone never revives a token: once [hasExpired()] is true it
    is true at every later clock reading of the same object. *)
Theorem hasExpired_monotone (now now' : Z) g :
  hasExpired now g = true → (now ≤ now')%Z → hasExpired now' g = true.
Proof.
  unfold hasExpired.
  destruct (truthy (token g) && truthy_num (expiresAt g)); [|done].
  rewrite !Z.geb_leb, !Z.leb_le. lia.
Qed.

Lemma hasExpired_monotone_witness :
  hasExpired 4600001 (this session_got) = true.
Proof.
  apply (hasExpired_monotone 4600000 4600001 (this session_got));
    [reflexivity | lia].
Defined.

(** ** The claims that are signed *)

(** X4: a manager constructed with an array of scopes asks for them joined
    by single spaces, in the order given: that string is the [scope] claim
    of the signed payload unless [additionalClaims] has a [scope] of its
    own. *)
Theorem scope_array_joined w options (l : list string) :
  opt_scope options = Some (ScopeArray l) →
  default ∅ (opt_additionalClaims options) !! "scope" = None →
  scope (new_GoogleToken (Some options)) = Some (String.concat " " l) ∧
  payload (jws_input w (new_GoogleToken (Some options))) !! "scope"
    = Some (JStr (String.concat " " l)).
Proof.
  intros S A.
  assert (scope (new_GoogleToken (Some options)) = Some (String.concat " " l))
    as J by (unfold new_GoogleToken, configure; simpl; by rewrite S).
  split; [done|].
  change (jwt_payload (new_GoogleToken (Some options)) (issued_at w) !! "scope"
          = Some (JStr (String.concat " " l))).
  unfold jwt_payload. rewrite lookup_Object_assign.
  change (additionalClaims (new_GoogleToken (Some options)))
    with (opt_additionalClaims options).
  rewrite A.
  change (Some (of_string (scope (new_GoogleToken (Some options))))
          = Some (JStr (String.concat " " l))).
  by rewrite J.
Qed.

Lemma scope_array_joined_witness :
  scope (new_GoogleToken (Some options_with_key)) = Some "scope1 scope2" ∧
  payload (jws_input good_world (new_GoogleToken (Some options_with_key)))
    !! "scope" = Some (JStr "scope1 scope2").
Proof.
  apply (scope_array_joined good_world options_with_key ["scope1"; "scope2"]);
    reflexivity.
Defined.

(** X5: the properties of the payload object that [requestToken] builds
    and passes to [jws.sign] are [iss], [scope], [aud], [exp], [iat],
    [sub] and the keys of [additionalClaims], no more and no fewer.  A
    claim whose value is undefined ([sub] without a configured subject)
    is a property of that object all the same; what the signer makes of
    it when it serialises the object is not part of this statement. *)
Theorem payload_keys g iat :
  dom (jwt_payload g iat) =
    ({["iss"; "scope"; "aud"; "exp"; "iat"; "sub"]} : gset string)
    ∪ dom (default ∅ (additionalClaims g)).
Proof.
  apply set_eq. intros k.
  rewrite elem_of_union, !elem_of_dom. unfold jwt_payload.
  rewrite lookup_Object_assign.
  assert (is_Some (standard_claims g iat !! k) ↔
          k ∈ ({["iss"; "scope"; "aud"; "exp"; "iat"; "sub"]} : gset string))
    as S.
  { rewrite <- elem_of_dom. unfold standard_claims.
    rewrite !dom_insert_L, dom_empty_L. set_solver. }
  destruct (default ∅ (additionalClaims g) !! k) as [v|] eqn:E.
  - split; [right; by exists v | by exists v].
  - rewrite S. split; [by left | intros [H|[v Hv]]; [done | discriminate Hv]].
Qed.

(** X6: unless [additionalClaims] says otherwise, the assertion is issued
    at the whole second of the clock reading, expires 3600 seconds later
    and is addressed to the token endpoint. *)
Theorem assertion_window w g :
  (default ∅ (additionalClaims g) !! "iat" = None →
   ∃ iat, payload (jws_input w g) !! "iat" = Some (JNum iat) ∧
          (iat * 1000 ≤ t_issue w < iat * 1000 + 1000)%Z) ∧
  (default ∅ (additionalClaims g) !! "exp" = None →
   payload (jws_input w g) !! "exp" = Some (JNum (issued_at w + 3600))) ∧
  (default ∅ (additionalClaims g) !! "aud" = None →
   payload (jws_input w g) !! "aud" = Some (JStr GOOGLE_TOKEN_URL)).
Proof.
  simpl. unfold jwt_payload. rewrite !lookup_Object_assign.
  split; [|split]; intros ->; [|done..].
  exists (issued_at w). split; [done|]. unfold issued_at.
  pose proof (Z.div_mod (t_issue w) 1000 ltac:(lia)).
  pose proof (Z.mod_pos_bound (t_issue w) 1000 ltac:(lia)). lia.
Qed.

Lemma assertion_window_witness :
  payload (jws_input good_world (this fresh_with_key)) !! "exp"
    = Some (JNum (issued_at good_world + 3600)).
Proof.
  apply (proj1 (proj2 (assertion_window good_world (this fresh_with_key)))).
  reflexivity.
Defined.

(** ** Reading a key file *)

Lemma getCredentials_json w path s :
  mime_getType w path = Some "application/json" →
  getCredentials w path s =
  let s1 := {| this := this s; log := log s ++ [ReadFile path "utf8"] |} in
  match fs_readFile w path with
  | inl e => (Rejected e, s1)
  | inr text =>
      match JSON_parse w text with
      | inl e => (Rejected e, s1)
      | inr body =>
          if truthy (private_key body) && truthy (client_email body)
          then (Resolved {| privateKey := private_key body;
                            clientEmail := client_email body |}, s1)
          else (Rejected (ErrorWithCode
                            "private_key and client_email are required."
                            "MISSING_CREDENTIALS"), s1)
      end
  end.
Proof.
  intros M. unfold getCredentials, and_then, emit, settle, resolve, throw.
  rewrite M. simpl.
  destruct (fs_readFile w path) as [e|text]; [done|].
  destruct (JSON_parse w text) as [e|body]; [done|].
  by destruct (truthy (private_key body)), (truthy (client_email body)).
Qed.

Lemma getCredentials_pem w path s :
  mime_getType w path = Some "application/x-x509-ca-cert" →
  getCredentials w path s =
  let s1 := {| this := this s; log := log s ++ [ReadFile path "utf8"] |} in
  match fs_readFile w path with
  | inl e => (Rejected e, s1)
  | inr text => (Resolved {| privateKey := Some text; clientEmail := None |}, s1)
  end.
Proof.
  intros M. unfold getCredentials, and_then, emit, settle, resolve, throw.
  rewrite M. simpl. by destruct (fs_readFile w path).
Qed.

Lemma getCredentials_p12 w path s :
  mime_getType w path = Some "application/x-pkcs12" →
  getCredentials w path s =
  let s1 := {| this := this s; log := log s ++ [GetPem path] |} in
  match p12_getPem w path with
  | inl e => (Rejected e, s1)
  | inr pem => (Resolved {| privateKey := Some pem; clientEmail := None |}, s1)
  end.
Proof.
  intros M. unfold getCredentials, and_then, emit, settle, resolve, throw.
  rewrite M. simpl. by destruct (p12_getPem w path).
Qed.

Lemma getCredentials_other w path s :
  mime_getType w path ≠ Some "application/json" →
  mime_getType w path ≠ Some "application/x-x509-ca-cert" →
  mime_getType w path ≠ Some "application/x-pkcs12" →
  getCredentials w path s =
    (Rejected
       (ErrorWithCode
          ("Unknown certificate type. Type is determined based on file extension. "
           ++ "Current supported extensions are *.json, *.pem, and *.p12.")
          "UNKNOWN_CERTIFICATE_TYPE"),
     s).
Proof.
  intros J P K. unfold getCredentials, throw.
  by rewrite !bool_decide_eq_false_2.
Qed.

(** X7: a key file whose type is none of JSON, PEM and PKCS#12 is refused
    with the code [UNKNOWN_CERTIFICATE_TYPE] before anything is read: the
    object and the log of calls are untouched. *)
Theorem getCredentials_unknown_type w path s :
  mime_getType w path ≠ Some "application/json" →
  mime_getType w path ≠ Some "application/x-x509-ca-cert" →
  mime_getType w path ≠ Some "application/x-pkcs12" →
  getCredentials w path s =
    (Rejected
       (ErrorWithCode
          ("Unknown certificate type. Type is determined based on file extension. "
           ++ "Current supported extensions are *.json, *.pem, and *.p12.")
          "UNKNOWN_CERTIFICATE_TYPE"),
     s).
Proof. apply getCredentials_other. Qed.

Lemma getCredentials_unknown_type_witness :
  getCredentials pem_world "k.xyz" fresh_unconfigured =
    (Rejected
       (ErrorWithCode
          ("Unknown certificate type. Type is determined based on file extension. "
           ++ "Current supported extensions are *.json, *.pem, and *.p12.")
          "UNKNOWN_CERTIFICATE_TYPE"),
     fresh_unconfigured).
Proof.
  apply (getCredentials_unknown_type pem_world "k.xyz" fresh_unconfigured);
    discriminate.
Defined.

(** X8: a JSON key file that parses to anything but [null] (an object, or
    a number, string, boolean or array, which have neither property) and
    whose [private_key] or [client_email] is absent or empty is refused
    with the code [MISSING_CREDENTIALS], after exactly one read of the
    file and with the object untouched.  (A file holding [null] is not in
    this case: there the read of [body.private_key] throws, which is an
    error answer of [JSON_parse].) *)
Theorem getCredentials_json_incomplete w path s text body :
  mime_getType w path = Some "application/json" →
  fs_readFile w path = inr text →
  JSON_parse w text = inr body →
  truthy (private_key body) = false ∨ truthy (client_email body) = false →
  getCredentials w path s =
    (Rejected (ErrorWithCode "private_key and client_email are required."
                             "MISSING_CREDENTIALS"),
     {| this := this s; log := log s ++ [ReadFile path "utf8"] |}).
Proof.
  intros M R P H. rewrite (getCredentials_json w path s M), R, P. simpl.
  destruct H as [-> | ->]; [done|]. by rewrite andb_false_r.
Qed.

(** The key file holding [null]: rejected with the error of the property
    read, after the one read of the file, not with [MISSING_CREDENTIALS]. *)
Lemma getCredentials_null_file :
  getCredentials null_json_world "k.json" fresh_unconfigured =
    (Rejected (ExternalError "Cannot read property 'private_key' of null"),
     {| this := this fresh_unconfigured; log := [ReadFile "k.json" "utf8"] |}).
Proof. reflexivity. Qed.

(** X9: whenever [getCredentials] resolves, it has read the key file once
    and done nothing else (same object, no network call), the private key
    it returns is present, and the client email is either absent (PEM and
    PKCS#12 files) or non-empty together with a non-empty key (JSON
    files). *)
Theorem getCredentials_resolved w path s creds s' :
  getCredentials w path s = (Resolved creds, s') →
  this s' = this s ∧
  file_reads (log s') = S (file_reads (log s)) ∧
  network_calls (log s') = network_calls (log s) ∧
  is_Some (privateKey creds) ∧
  (clientEmail creds = None ∨
   truthy (privateKey creds) = true ∧ truthy (clientEmail creds) = true).
Proof.
  destruct (decide (mime_getType w path = Some "application/json")) as [J|J].
  { rewrite (getCredentials_json w path s J). simpl.
    destruct (fs_readFile w path) as [e|text]; [done|].
    destruct (JSON_parse w text) as [e|body]; [done|].
    destruct (truthy (private_key body)) eqn:K; [|done].
    destruct (truthy (client_email body)) eqn:E; [|done].
    intros [= <- <-]. simpl. rewrite file_reads_app, network_calls_app.
    split; [done|]. do 2 (split; [by rewrite ?Nat.add_1_r, ?Nat.add_0_r|]). split; [|by right].
    destruct (private_key body); [by eexists | done]. }
  destruct (decide (mime_getType w path = Some "application/x-x509-ca-cert"))
    as [P|P].
  { rewrite (getCredentials_pem w path s P). simpl.
    destruct (fs_readFile w path) as [e|text]; [done|].
    intros [= <- <-]. simpl. rewrite file_reads_app, network_calls_app.
    split; [done|]. do 2 (split; [by rewrite ?Nat.add_1_r, ?Nat.add_0_r|]). split; [by eexists | by left]. }
  destruct (decide (mime_getType w path = Some "application/x-pkcs12")) as [K|K].
  { rewrite (getCredentials_p12 w path s K). simpl.
    destruct (p12_getPem w path) as [e|pem]; [done|].
    intros [= <- <-]. simpl. rewrite file_reads_app, network_calls_app.
    split; [done|]. do 2 (split; [by rewrite ?Nat.add_1_r, ?Nat.add_0_r|]). split; [by eexists | by left]. }
  by rewrite (getCredentials_other w path s J P K).
Qed.

Lemma getCredentials_json_incomplete_witness :
  getCredentials incomplete_json_world "k.json" fresh_unconfigured =
    (Rejected (ErrorWithCode "private_key and client_email are required."
                             "MISSING_CREDENTIALS"),
     {| this := this fresh_unconfigured;
        log := log fresh_unconfigured ++ [ReadFile "k.json" "utf8"] |}).
Proof.
  apply (getCredentials_json_incomplete incomplete_json_world "k.json"
           fresh_unconfigured "{}"
           {| private_key := Some "PK"; client_email := None |});
    try reflexivity.
  right. reflexivity.
Defined.

Lemma getCredentials_resolved_witness :
  this (getCredentials json_world "k.json" fresh_unconfigured).2
    = this fresh_unconfigured ∧
  file_reads (log (getCredentials json_world "k.json" fresh_unconfigured).2)
    = S (file_reads (log fresh_unconfigured)) ∧
  network_calls (log (getCredentials json_world "k.json" fresh_unconfigured).2)
    = network_calls (log fresh_unconfigured) ∧
  is_Some (Some "PK") ∧
  ((Some "E" : option string) = None ∨
   truthy (Some "PK") = true ∧ truthy (Some "E") = true).
Proof.
  apply (getCredentials_resolved json_world "k.json" fresh_unconfigured
           {| privateKey := Some "PK"; clientEmail := Some "E" |}
           (getCredentials json_world "k.json" fresh_unconfigured).2).
  reflexivity.
Defined.

(** ** [getToken()] before the exchange *)

(** The key-file step of [getTokenAsync], in one equation. *)
Lemma getTokenAsync_resolving w s path :
  hasExpired (t_check w) (this s) = true →
  truthy (key (this s)) = false →
  keyFile (this s) = Some path →
  path ≠ "" →
  getTokenAsync w s =
  match getCredentials w path s with
  | (Rejected e, s1) => (Rejected e, s1)
  | (Resolved creds, s1) =>
      let g1 := set_iss (js_or (clientEmail creds) (iss (this s1)))
                        (set_key (privateKey creds) (this s1)) in
      if negb (truthy (clientEmail creds)) && negb (truthy (iss g1))
      then (Rejected (ErrorWithCode "email is required." "MISSING_CREDENTIALS"),
            {| this := g1; log := log s1 |})
      else requestToken w {| this := g1; log := log s1 |}
  end.
Proof.
  intros H K F P.
  unfold getTokenAsync, and_then, self, resolve, assign, ensureEmail, throw.
  rewrite H, K, F, (truthy_Some_true _ P). simpl.
  destruct (getCredentials w path s) as [[creds|e] s1]; [|done]. simpl.
  destruct (truthy (clientEmail creds)); simpl; [done|].
  unfold and_then, self, resolve. simpl.
  by destruct (truthy (js_or (clientEmail creds) (iss (this s1)))).
Qed.

Lemma getToken_unconfigured_run w s :
  hasExpired (t_check w) (this s) = true →
  truthy (key (this s)) = false →
  truthy (keyFile (this s)) = false →
  getTokenAsync w s = (Rejected (Error "No key or keyFile set."), s).
Proof.
  intros H K F. unfold getTokenAsync, and_then, self, throw.
  by rewrite H, K, F.
Qed.

(** X10: a manager with neither a key nor a key file cannot get a token:
    once [hasExpired()] is true, [getToken()] rejects with
    [No key or keyFile set.] without touching the object or calling
    anything. *)
Theorem getToken_unconfigured w s :
  hasExpired (t_check w) (this s) = true →
  truthy (key (this s)) = false →
  truthy (keyFile (this s)) = false →
  getTokenAsync w s = (Rejected (Error "No key or keyFile set."), s).
Proof. apply getToken_unconfigured_run. Qed.

Lemma getToken_unconfigured_witness :
  getTokenAsync good_world fresh_unconfigured
    = (Rejected (Error "No key or keyFile set."), fresh_unconfigured).
Proof.
  apply (getToken_unconfigured good_world fresh_unconfigured); reflexivity.
Defined.

(** X11: with no key held and a complete JSON key file, [getToken()] reads
    the file once, adopts its [private_key] as key and its [client_email]
    as issuer, replacing whatever issuer was configured, and goes on to
    the exchange with that object. *)
Theorem getToken_json_keyfile w s path text body :
  hasExpired (t_check w) (this s) = true →
  truthy (key (this s)) = false →
  keyFile (this s) = Some path → path ≠ "" →
  mime_getType w path = Some "application/json" →
  fs_readFile w path = inr text →
  JSON_parse w text = inr body →
  truthy (private_key body) = true →
  truthy (client_email body) = true →
  getTokenAsync w s =
    requestToken w
      {| this := set_iss (client_email body) (set_key (private_key body) (this s));
         log := log s ++ [ReadFile path "utf8"] |}.
Proof.
  intros H K F P M R J PK CE.
  rewrite (getTokenAsync_resolving w s path H K F P).
  rewrite (getCredentials_json w path s M), R, J. simpl.
  rewrite PK, CE. simpl. unfold js_or. by rewrite CE.
Qed.

Lemma getToken_json_keyfile_witness :
  getTokenAsync json_world (fresh_with "k.json" (Some "configured@example.org")) =
    requestToken json_world
      {| this := set_iss (Some "E")
                   (set_key (Some "PK")
                      (this (fresh_with "k.json" (Some "configured@example.org"))));
         log := [ReadFile "k.json" "utf8"] |}.
Proof.
  apply (getToken_json_keyfile json_world
           (fresh_with "k.json" (Some "configured@example.org")) "k.json" "{}"
           {| private_key := Some "PK"; client_email := Some "E" |});
    try reflexivity.
  discriminate.
Defined.

Lemma getToken_pem_resolution w s path text :
  hasExpired (t_check w) (this s) = true →
  truthy (key (this s)) = false →
  keyFile (this s) = Some path → path ≠ "" →
  mime_getType w path = Some "application/x-x509-ca-cert" →
  fs_readFile w path = inr text →
  getTokenAsync w s =
    let s1 := {| this := set_key (Some text) (this s);
                 log := log s ++ [ReadFile path "utf8"] |} in
    if truthy (iss (this s)) then requestToken w s1
    else (Rejected (ErrorWithCode "email is required." "MISSING_CREDENTIALS"), s1).
Proof.
  intros H K F P M R.
  rewrite (getTokenAsync_resolving w s path H K F P).
  rewrite (getCredentials_pem w path s M), R. unfold js_or. simpl.
  destruct (truthy (iss (this s))); reflexivity.
Qed.

(** X12: with no key held and a PEM key file, [getToken()] reads the file
    once and adopts its text as key; the file gives no issuer, so with an
    issuer configured the call goes on to the exchange, and without one it
    rejects with [email is required.] (code [MISSING_CREDENTIALS]) before
    any network call, the key staying adopted. *)
Theorem getToken_pem_keyfile w s path text :
  hasExpired (t_check w) (this s) = true →
  truthy (key (this s)) = false →
  keyFile (this s) = Some path → path ≠ "" →
  mime_getType w path = Some "application/x-x509-ca-cert" →
  fs_readFile w path = inr text →
  getTokenAsync w s =
    let s1 := {| this := set_key (Some text) (this s);
                 log := log s ++ [ReadFile path "utf8"] |} in
    if truthy (iss (this s)) then requestToken w s1
    else (Rejected (ErrorWithCode "email is required." "MISSING_CREDENTIALS"), s1).
Proof. apply getToken_pem_resolution. Qed.

Lemma getToken_pem_keyfile_witness :
  getTokenAsync pem_world (fresh_with "k.pem" None) =
    (Rejected (ErrorWithCode "email is required." "MISSING_CREDENTIALS"),
     {| this := set_key (Some "PEM") (this (fresh_with "k.pem" None));
        log := [ReadFile "k.pem" "utf8"] |}).
Proof.
  apply (getToken_pem_keyfile pem_world (fresh_with "k.pem" None) "k.pem" "PEM");
    try reflexivity.
  discriminate.
Defined.

(** X13: the issuer is only checked on the call that reads the key file.
    When a manager without token and issuer is refused for the missing
    email after reading a non-empty PEM file, the key it adopted stays, so
    every later [getToken()] skips the file and the check and goes straight
    to the exchange, still without an issuer. *)
Theorem getToken_after_missing_email w s path text :
  truthy (token (this s)) = false →
  truthy (key (this s)) = false →
  keyFile (this s) = Some path → path ≠ "" →
  mime_getType w path = Some "application/x-x509-ca-cert" →
  fs_readFile w path = inr text → text ≠ "" →
  truthy (iss (this s)) = false →
  (getTokenAsync w s).1
    = Rejected (ErrorWithCode "email is required." "MISSING_CREDENTIALS") ∧
  truthy (iss (this (getTokenAsync w s).2)) = false ∧
  ∀ w', getTokenAsync w' (getTokenAsync w s).2
          = requestToken w' (getTokenAsync w s).2.
Proof.
  intros T K F P M R N I.
  rewrite (getToken_pem_resolution w s path text); try done;
    [|by apply hasExpired_without_token].
  rewrite I. simpl. do 2 (split; [done|]).
  intros w'. apply getTokenAsync_with_key; simpl.
  - by apply hasExpired_without_token.
  - by apply truthy_Some_true.
Qed.

Lemma getToken_after_missing_email_witness :
  (getTokenAsync pem_world (fresh_with "k.pem" None)).1
    = Rejected (ErrorWithCode "email is required." "MISSING_CREDENTIALS") ∧
  truthy (iss (this (getTokenAsync pem_world (fresh_with "k.pem" None)).2))
    = false ∧
  ∀ w', getTokenAsync w' (getTokenAsync pem_world (fresh_with "k.pem" None)).2
          = requestToken w' (getTokenAsync pem_world (fresh_with "k.pem" None)).2.
Proof.
  apply (getToken_after_missing_email pem_world (fresh_with "k.pem" None)
           "k.pem" "PEM"); try reflexivity; discriminate.
Defined.

(** X14: when the key file cannot be turned into credentials (unknown
    type, unreadable, unparsable, incomplete), [getToken()] rejects with
    the very error of [getCredentials], with the object as it was and no
    network call made. *)
Theorem getToken_keyfile_error w s path e s1 :
  hasExpired (t_check w) (this s) = true →
  truthy (key (this s)) = false →
  keyFile (this s) = Some path → path ≠ "" →
  getCredentials w path s = (Rejected e, s1) →
  getTokenAsync w s = (Rejected e, s1) ∧
  this s1 = this s ∧
  network_calls (log s1) = network_calls (log s).
Proof.
  intros H K F P G.
  rewrite (getTokenAsync_resolving w s path H K F P), G.
  split; [done|].
  destruct (getCredentials_frame w path s) as [T N].
  by rewrite G in T, N.
Qed.

Lemma getToken_keyfile_error_witness :
  getTokenAsync unreadable_world (fresh_with "k.pem" (Some "E"))
    = (Rejected (ExternalError "ENOENT"),
       {| this := this (fresh_with "k.pem" (Some "E"));
          log := [ReadFile "k.pem" "utf8"] |}) ∧
  this (fresh_with "k.pem" (Some "E")) = this (fresh_with "k.pem" (Some "E")) ∧
  network_calls [ReadFile "k.pem" "utf8"]
    = network_calls (log (fresh_with "k.pem" (Some "E"))).
Proof.
  apply (getToken_keyfile_error unreadable_world (fresh_with "k.pem" (Some "E"))
           "k.pem" (ExternalError "ENOENT")
           {| this := this (fresh_with "k.pem" (Some "E"));
              log := [ReadFile "k.pem" "utf8"] |});
    try reflexivity.
  discriminate.
Defined.

(** ** Failures around the exchange *)

(** X15: when signing the assertion throws (a malformed key, say),
    [getToken()] on a manager that holds a key rejects with that error
    after the one call to the signer: nothing is sent to the token
    endpoint and the object, its token included, is left as it was. *)
Theorem getToken_sign_failure w s e :
  hasExpired (t_check w) (this s) = true →
  truthy (key (this s)) = true →
  jws_sign w (jws_input w (this s)) = inl e →
  getTokenAsync w s =
    (Rejected e,
     {| this := this s; log := log s ++ [JwsSign (jws_input w (this s))] |}) ∧
  network_calls (log (getTokenAsync w s).2) = network_calls (log s).
Proof.
  intros H K S. rewrite (getTokenAsync_with_key w s H K), requestToken_run.
  unfold exchange, exchange_calls. rewrite S. split; [done|]. simpl.
  by rewrite network_calls_app, Nat.add_0_r.
Qed.

Lemma getToken_sign_failure_witness :
  getTokenAsync unsigned_world fresh_with_key =
    (Rejected (ExternalError "error:0909006C:PEM routines"),
     {| this := this fresh_with_key;
        log := log fresh_with_key
               ++ [JwsSign (jws_input unsigned_world (this fresh_with_key))] |}) ∧
  network_calls (log (getTokenAsync unsigned_world fresh_with_key).2)
    = network_calls (log fresh_with_key).
Proof.
  apply (getToken_sign_failure unsigned_world fresh_with_key
           (ExternalError "error:0909006C:PEM routines")); reflexivity.
Defined.

(** X16: a failed exchange clears nothing but [token] (and
    [tokenExpires]): [expiresAt] and [rawToken] still hold what the last
    successful exchange stored, and the configuration is untouched. *)
Theorem failed_exchange_keeps_rest w s f :
  exchange w (this s) = PostFailed f →
  expiresAt (this (requestToken w s).2) = expiresAt (this s) ∧
  rawToken (this (requestToken w s).2) = rawToken (this s) ∧
  key (this (requestToken w s).2) = key (this s) ∧
  keyFile (this (requestToken w s).2) = keyFile (this s) ∧
  iss (this (requestToken w s).2) = iss (this s) ∧
  sub (this (requestToken w s).2) = sub (this s) ∧
  scope (this (requestToken w s).2) = scope (this s) ∧
  additionalClaims (this (requestToken w s).2) = additionalClaims (this s).
Proof. intros X. by rewrite requestToken_run, X. Qed.

Lemma failed_exchange_keeps_rest_witness :
  expiresAt (this (requestToken (failing_world invalid_grant) session_got).2)
    = Some 4600000 ∧
  rawToken (this (requestToken (failing_world invalid_grant) session_got).2)
    = Some (response_with (Some "T") (Some 3600)).
Proof.
  destruct (failed_exchange_keeps_rest (failing_world invalid_grant) session_got
              (bad_request invalid_grant) eq_refl) as (E & R & _).
  split; [exact E | exact R].
Defined.

(** ** Revocation, again *)

(** X17: a token can be revoked once: after a successful
    [revokeToken()], a second one rejects with [No token to revoke.] and
    calls nothing, whatever the world answers. *)
Theorem revokeToken_twice w w' s :
  truthy (token (this s)) = true →
  axios_get w (revoke_url (this s)) = inr tt →
  revokeTokenAsync w' (revokeTokenAsync w s).2 =
    (Rejected (Error "No token to revoke."), (revokeTokenAsync w s).2).
Proof.
  intros T G. rewrite (revokeTokenAsync_run w s), T, G. simpl.
  by rewrite revokeTokenAsync_run.
Qed.

Lemma revokeToken_twice_witness :
  revokeTokenAsync good_world (revokeTokenAsync (later good_world) session_got).2 =
    (Rejected (Error "No token to revoke."),
     (revokeTokenAsync (later good_world) session_got).2).
Proof.
  apply (revokeToken_twice (later good_world) good_world session_got);
    reflexivity.
Defined.

(** ** What a call may change, and how much it may call *)

Lemma truthy_Some_inv (o : option string) :
  truthy o = true → ∃ s, o = Some s ∧ s ≠ "".
Proof.
  destruct o as [s|]; [|done]. simpl. intros H. exists s. split; [done|].
  intros ->. by rewrite bool_decide_eq_true_2 in H.
Qed.

Lemma file_reads_ReadFile path encoding :
  file_reads [ReadFile path encoding] = 1%nat.
Proof. reflexivity. Qed.

Lemma file_reads_GetPem path : file_reads [GetPem path] = 1%nat.
Proof. reflexivity. Qed.

Lemma calls_HttpGet url opts :
  network_calls [HttpGet url opts] = 1%nat ∧ file_reads [HttpGet url opts] = 0%nat.
Proof. by split. Qed.

Lemma getCredentials_file_reads w path s :
  (file_reads (log (getCredentials w path s).2) ≤ S (file_reads (log s)))%nat.
Proof.
  unfold getCredentials, and_then, emit, settle, resolve, throw.
  repeat case_bool_decide; simpl;
    repeat match goal with
           | |- context [match ?x with inl _ => _ | inr _ => _ end] =>
               destruct x; simpl
           | |- context [if ?b then _ else _] => destruct b; simpl
           end;
    rewrite ?file_reads_app, ?file_reads_ReadFile, ?file_reads_GetPem; lia.
Qed.

(** What [requestToken] leaves alone: the configuration, and the count of
    file reads; and it makes one network call at most. *)
Lemma requestToken_frame w s :
  key (this (requestToken w s).2) = key (this s) ∧
  keyFile (this (requestToken w s).2) = keyFile (this s) ∧
  iss (this (requestToken w s).2) = iss (this s) ∧
  sub (this (requestToken w s).2) = sub (this s) ∧
  scope (this (requestToken w s).2) = scope (this s) ∧
  additionalClaims (this (requestToken w s).2) = additionalClaims (this s) ∧
  file_reads (log (requestToken w s).2) = file_reads (log s) ∧
  (network_calls (log (requestToken w s).2) ≤ S (network_calls (log s)))%nat.
Proof.
  rewrite requestToken_run.
  pose proof (exchange_calls_network w (this s)) as N.
  pose proof (exchange_calls_file_reads w (this s)) as F.
  destruct (exchange w (this s)); simpl;
    rewrite file_reads_app, network_calls_app, N, F;
    repeat split; lia.
Qed.

(** X18: [getToken()] never changes [keyFile], [sub], [scope] or
    [additionalClaims], whatever its outcome, and a manager that holds a
    key keeps that key and its issuer. *)
Theorem getToken_keeps_configuration w s :
  keyFile (this (getTokenAsync w s).2) = keyFile (this s) ∧
  sub (this (getTokenAsync w s).2) = sub (this s) ∧
  scope (this (getTokenAsync w s).2) = scope (this s) ∧
  additionalClaims (this (getTokenAsync w s).2) = additionalClaims (this s) ∧
  (truthy (key (this s)) = true →
   key (this (getTokenAsync w s).2) = key (this s) ∧
   iss (this (getTokenAsync w s).2) = iss (this s)).
Proof.
  destruct (hasExpired (t_check w) (this s)) eqn:H.
  2:{ by rewrite getTokenAsync_cached. }
  destruct (truthy (key (this s))) eqn:K.
  { rewrite (getTokenAsync_with_key w s H K).
    destruct (requestToken_frame w s) as (? & ? & ? & ? & ? & ? & _). done. }
  destruct (truthy (keyFile (this s))) eqn:F.
  2:{ by rewrite (getToken_unconfigured_run w s H K F). }
  destruct (truthy_Some_inv _ F) as (path & Fp & P).
  rewrite (getTokenAsync_resolving w s path H K Fp P).
  destruct (getCredentials_frame w path s) as [T _].
  destruct (getCredentials w path s) as [[creds|e] s1]; simpl in T.
  2:{ simpl. by rewrite T. }
  cbv zeta.
  destruct (negb (truthy (clientEmail creds)) && negb _).
  { simpl. by rewrite T. }
  destruct (requestToken_frame w
              {| this := set_iss (js_or (clientEmail creds) (iss (this s1)))
                           (set_key (privateKey creds) (this s1));
                 log := log s1 |}) as (_ & -> & _ & -> & -> & -> & _).
  simpl. by rewrite T.
Qed.

(** X19: no call is ever repeated: one [getToken()] makes at most one
    network call and reads the key file at most once, and one
    [revokeToken()] makes at most one network call and reads no file. *)
Theorem one_attempt_per_call w s :
  ((network_calls (log (getTokenAsync w s).2) ≤ S (network_calls (log s)))%nat ∧
   (file_reads (log (getTokenAsync w s).2) ≤ S (file_reads (log s)))%nat) ∧
  ((network_calls (log (revokeTokenAsync w s).2) ≤ S (network_calls (log s)))%nat ∧
   file_reads (log (revokeTokenAsync w s).2) = file_reads (log s)).
Proof.
  split.
  - destruct (hasExpired (t_check w) (this s)) eqn:H.
    2:{ rewrite getTokenAsync_cached by done. simpl. lia. }
    destruct (truthy (key (this s))) eqn:K.
    { rewrite (getTokenAsync_with_key w s H K).
      destruct (requestToken_frame w s) as (_ & _ & _ & _ & _ & _ & -> & ?). lia. }
    destruct (truthy (keyFile (this s))) eqn:F.
    2:{ rewrite (getToken_unconfigured_run w s H K F). simpl. lia. }
    destruct (truthy_Some_inv _ F) as (path & Fp & P).
    rewrite (getTokenAsync_resolving w s path H K Fp P).
    destruct (getCredentials_frame w path s) as [_ N].
    pose proof (getCredentials_file_reads w path s) as R.
    destruct (getCredentials w path s) as [[creds|e] s1]; simpl in N, R.
    2:{ simpl. lia. }
    cbv zeta.
    destruct (negb (truthy (clientEmail creds)) && negb _).
    { simpl. lia. }
    destruct (requestToken_frame w
                {| this := set_iss (js_or (clientEmail creds) (iss (this s1)))
                             (set_key (privateKey creds) (this s1));
                   log := log s1 |}) as (_ & _ & _ & _ & _ & _ & -> & ?).
    simpl in *. lia.
  - rewrite revokeTokenAsync_run.
    destruct (truthy (token (this s))); [|simpl; lia].
    destruct (calls_HttpGet (revoke_url (this s)) (revoke_opts w)) as [N F].
    destruct (axios_get w (revoke_url (this s))); simpl;
      rewrite network_calls_app, file_reads_app, N, F; lia.
Qed.

(** X20: what [getToken()] resolves with is always the token the object
    holds afterwards, on the cached path and after an exchange alike. *)
Theorem getToken_returns_stored_token w s t s' :
  getTokenAsync w s = (Resolved t, s') → t = token (this s').
Proof.
  intros R. destruct (hasExpired (t_check w) (this s)) eqn:H.
  - destruct (getTokenAsync_refreshed w s t s' H R) as (_ & r & -> & _ & -> & _).
    done.
  - rewrite (getTokenAsync_cached w s H) in R. by injection R as <- <-.
Qed.

Lemma getToken_returns_stored_token_witness :
  Some "T" = token (this session_got).
Proof.
  apply (getToken_returns_stored_token good_world session_start (Some "T")
           session_got).
  reflexivity.
Defined.

Lemma getToken_keeps_configuration_witness :
  key (this (getTokenAsync good_world fresh_with_key).2) = key (this fresh_with_key) ∧
  iss (this (getTokenAsync good_world fresh_with_key).2) = iss (this fresh_with_key).
Proof.
  apply (proj2 (proj2 (proj2 (proj2
           (getToken_keeps_configuration good_world fresh_with_key))))).
  reflexivity.
Defined.

(** ** The proxy *)

Lemma with_proxy_proxied px opts :
  httpsAgent opts = None → proxy opts = None →
  proxied_as px (with_proxy px opts).
Proof.
  intros A P. unfold proxied_as, with_proxy.
  by destruct (truthy px).
Qed.

(** X21: every request [requestToken()] and [revokeToken()] send follows
    the proxy variable read in that call: with a non-empty [HTTPS_PROXY]
    the request carries the agent of that proxy and switches axios' own
    proxy handling off, and without one it carries neither setting.  The
    POST always goes to the token endpoint as a form, the GET to the
    revocation endpoint followed by the token. *)
Theorem requests_follow_proxy w s :
  (∃ calls,
     log (requestToken w s).2 = (log s ++ calls)%list ∧
     ∀ ev, ev ∈ calls → is_network ev = true →
       ∃ form opts,
         ev = HttpPost GOOGLE_TOKEN_URL form opts ∧
         grant_type form = "urn:ietf:params:oauth:grant-type:jwt-bearer" ∧
         jws_sign w (jws_input w (this s)) = inr (assertion form) ∧
         content_type opts = Some "application/x-www-form-urlencoded" ∧
         proxied_as (env_proxy w) opts) ∧
  (∃ calls,
     log (revokeTokenAsync w s).2 = (log s ++ calls)%list ∧
     ∀ ev, ev ∈ calls →
       ∃ opts,
         ev = HttpGet (GOOGLE_REVOKE_TOKEN_URL ++ default "" (token (this s))) opts ∧
         truthy (token (this s)) = true ∧
         proxied_as (env_proxy w) opts).
Proof.
  split.
  - exists (exchange_calls w (this s)). split.
    { rewrite requestToken_run. by destruct (exchange w (this s)). }
    unfold exchange_calls. intros ev.
    destruct (jws_sign w (jws_input w (this s))) as [e|jwt].
    { intros H. apply list_elem_of_singleton in H as ->. done. }
    intros [->|H]%elem_of_cons; [done|].
    apply list_elem_of_singleton in H as ->. intros _.
    exists (token_form jwt), (token_opts w). do 3 (split; [done|]).
    unfold token_opts, with_proxy, proxied_as.
    by destruct (truthy (env_proxy w)).
  - rewrite revokeTokenAsync_run.
    destruct (truthy (token (this s))) eqn:T.
    2:{ exists []. split; [by rewrite app_nil_r|].
        intros ev H. by apply elem_of_nil in H. }
    exists [HttpGet (revoke_url (this s)) (revoke_opts w)]. split.
    { by destruct (axios_get w (revoke_url (this s))). }
    intros ev H. apply list_elem_of_singleton in H as ->.
    exists (revoke_opts w).
    do 2 (split; [done|]). by apply with_proxy_proxied.
Qed.

Lemma requests_follow_proxy_witness :
  ∃ calls,
    log (requestToken proxied_world fresh_with_key).2
      = (log fresh_with_key ++ calls)%list ∧
    ∀ ev, ev ∈ calls → is_network ev = true →
      ∃ form opts,
        ev = HttpPost GOOGLE_TOKEN_URL form opts ∧
        grant_type form = "urn:ietf:params:oauth:grant-type:jwt-bearer" ∧
        jws_sign proxied_world (jws_input proxied_world (this fresh_with_key))
          = inr (assertion form) ∧
        content_type opts = Some "application/x-www-form-urlencoded" ∧
        proxied_as (env_proxy proxied_world) opts.
Proof. exact (proj1 (requests_follow_proxy proxied_world fresh_with_key)). Defined.

(** ** The callback forms *)

(** X22: [getToken(callback)] is [getToken()] followed by one call of the
    callback: with [(null, token)] when the promise resolves, provided the
    callback returns normally there, and with the error alone when the
    promise rejects.  A callback that throws on its success call is called
    a second time, with its own error. *)
Theorem getToken_callback_outcome w callback s :
  (∀ t s1 u s2,
     getTokenAsync w s = (Resolved t, s1) →
     callback None t s1 = (Resolved u, s2) →
     getToken_callback w callback s = (Resolved u, s2)) ∧
  (∀ e s1,
     getTokenAsync w s = (Rejected e, s1) →
     getToken_callback w callback s = callback (Some e) None s1) ∧
  (∀ t s1 e s2,
     getTokenAsync w s = (Resolved t, s1) →
     callback None t s1 = (Rejected e, s2) →
     getToken_callback w callback s = callback (Some e) None s2).
Proof.
  unfold getToken_callback, catch, and_then.
  split; [|split].
  - intros t s1 u s2 -> ->. done.
  - intros e s1 ->. done.
  - intros t s1 e s2 -> ->. done.
Qed.

Lemma getToken_callback_outcome_witness :
  getToken_callback good_world ignore_token session_start
    = (Resolved tt, session_got).
Proof.
  apply (proj1 (getToken_callback_outcome good_world ignore_token session_start)
           (Some "T") session_got tt session_got); reflexivity.
Defined.

(** X23: [revokeToken(callback)] is [revokeToken()] followed by one call
    of the callback: without argument when the revocation succeeded,
    provided the callback returns normally there, and with the error when
    it failed, a missing token included.  A callback that throws on its
    success call is called a second time, with its own error. *)
Theorem revokeToken_callback_outcome w callback s :
  (∀ s1 u s2,
     revokeTokenAsync w s = (Resolved tt, s1) →
     callback None s1 = (Resolved u, s2) →
     revokeToken_callback w callback s = (Resolved u, s2)) ∧
  (∀ e s1,
     revokeTokenAsync w s = (Rejected e, s1) →
     revokeToken_callback w callback s = callback (Some e) s1) ∧
  (∀ s1 e s2,
     revokeTokenAsync w s = (Resolved tt, s1) →
     callback None s1 = (Rejected e, s2) →
     revokeToken_callback w callback s = callback (Some e) s2) ∧
  (truthy (token (this s)) = false →
   revokeToken_callback w callback s
     = callback (Some (Error "No token to revoke.")) s).
Proof.
  unfold revokeToken_callback, catch, and_then.
  split; [|split; [|split]].
  - intros s1 u s2 -> ->. done.
  - intros e s1 ->. done.
  - intros s1 e s2 -> ->. done.
  - intros T. by rewrite revokeTokenAsync_run, T.
Qed.

Lemma revokeToken_callback_outcome_witness :
  revokeToken_callback good_world ignore_outcome session_start
    = ignore_outcome (Some (Error "No token to revoke.")) session_start.
Proof.
  apply (proj2 (proj2 (proj2
           (revokeToken_callback_outcome good_world ignore_outcome session_start)))).
  reflexivity.
Defined.
